(** * IBM Quantum QCE20 tutorials: the quantum-volume and annealing-schedule cells

    A shallow embedding of the Python cells of [QCVV/Session 3.ipynb] and
    [Optimization/Session 2.ipynb] that carry data or control flow of their
    own, and of the heavy-output statistical test the specification
    describes.  Python exceptions are values of [exn]; a function that can
    raise returns a [result], and a cell that fills a global list is a run
    that keeps the list and the printed lines when an exception ends it. *)

From Stdlib Require Import List ZArith QArith Lia Lqa Bool Floats Uint63 Permutation Sorted.
From Stdlib Require String Ascii BinaryString DecimalString.
Import ListNotations.

(** ** Python values shared by the notebooks *)

Module Py.

Inductive exn : Type :=
| ZeroDivisionError
| IndexError
| DomainError
| OverflowError.

Inductive result (A : Type) : Type :=
| Ok (a : A)
| Raise (e : exn).

Arguments Ok {A} a.
Arguments Raise {A} e.

Definition bind {A B : Type} (c : result A) (k : A -> result B) : result B :=
  match c with
  | Ok a => k a
  | Raise e => Raise e
  end.

(** [range(lo, hi)] over the integers; empty when [hi <= lo]. *)
Definition range2 (lo hi : Z) : list Z :=
  map (fun k => (lo + Z.of_nat k)%Z) (seq 0 (Z.to_nat (hi - lo))).

(** [range(n)]. *)
Definition range (n : Z) : list Z := range2 0 n.

(** [len(l)]. *)
Definition len {A : Type} (l : list A) : Z := Z.of_nat (length l).

(** [l[i]]: a negative index counts from the end, an index out of range
    raises [IndexError]. *)
Definition index {A : Type} (l : list A) (i : Z) : result A :=
  let j := (if i <? 0 then len l + i else i)%Z in
  if (j <? 0)%Z then Raise IndexError
  else match nth_error l (Z.to_nat j) with
       | Some a => Ok a
       | None => Raise IndexError
       end.

End Py.

Import Py.

Declare Scope py_scope.
Delimit Scope py_scope with py.
Notation "x <- c ;; k" := (bind c (fun x => k))
  (at level 61, c at next level, right associativity) : py_scope.
Notation "' p <- c ;; k" := (bind c (fun x => match x with p => k end))
  (at level 61, p pattern, c at next level, right associativity) : py_scope.
Open Scope py_scope.

(** ** Python built-ins the other cells use *)

Module PyList.

(** [enumerate(l)] *)
Definition enumerate {A : Type} (l : list A) : list (Z * A) :=
  combine (range (len l)) l.

(** [zip(l1, l2)] *)
Definition zip {A B : Type} (l1 : list A) (l2 : list B) : list (A * B) :=
  combine l1 l2.

(** Run [f] on every element in order; the first exception ends the run. *)
Fixpoint traverse {A B : Type} (f : A -> result B) (l : list A) : result (list B) :=
  match l with
  | [] => Ok []
  | a :: l' => b <- f a ;; bs <- traverse f l' ;; Ok (b :: bs)
  end.

Fixpoint replace_nth {A : Type} (l : list A) (n : nat) (v : A) : list A :=
  match l, n with
  | [], _ => []
  | _ :: l', O => v :: l'
  | a :: l', S n' => a :: replace_nth l' n' v
  end.

(** [l[i] = v]: a negative index counts from the end, an index out of range
    raises [IndexError]. *)
Definition setitem {A : Type} (l : list A) (i : Z) (v : A) : result (list A) :=
  let j := (if i <? 0 then len l + i else i)%Z in
  if ((j <? 0) || (len l <=? j))%Z then Raise IndexError
  else Ok (replace_nth l (Z.to_nat j) v).

End PyList.

Import PyList.

(** ** QCVV, Session 3: the quantum-volume experiment *)

Module Session3.

(** [qubit_list = [list(range(width)) for width in range(2, 6)]] *)
Definition qubit_list : list (list Z) :=
  map (fun width => range width) (range2 2 6).

(** [numTrials = 100] *)
Definition numTrials : Z := 100.

(** What a cell writes on standard output. *)
Inductive stdout_line : Type :=
| Simulating_trial (trial : Z)
| Running_trial (trial : Z).

Section Experiment.

(** The circuits and the two simulators belong to the quantum-computing
    library; the cells only pass values between them. *)
Variable circuit : Type.
Variable ideal_result : Type.
Variable exp_result : Type.

(** [qv.qv_circuits(qubit_list, ntrials=numTrials)]: the circuits with and
    without their final measurements, indexed as (trial, width). *)
Variable qv_circuits :
  list (list Z) -> Z -> list (list circuit) * list (list circuit).

(** [qiskit.execute(row, backend=statevector_simulator,
    optimization_level=0).result()] *)
Variable execute_statevector : list circuit -> ideal_result.

(** [qiskit.execute(row, basis_gates=..., backend=qasm_simulator,
    noise_model=..., coupling_map=..., backend_options=...,
    optimization_level=3).result()] *)
Variable execute_noisy : list circuit -> exp_result.

Definition qv_circs : list (list circuit) :=
  fst (qv_circuits qubit_list numTrials).

Definition qv_circs_nomeas : list (list circuit) :=
  snd (qv_circuits qubit_list numTrials).

(** One iteration of the loop that fills [ideal_results].  The state is what
    the cell leaves behind: the lines printed so far and the global list,
    with the exception that ended the cell, if any.  The progress line is
    printed before the row is looked up, and once an exception is raised
    nothing more runs. *)
Definition ideal_step (circs : list (list circuit))
  (st : (list stdout_line * list ideal_result) * option exn) (trial : Z)
  : (list stdout_line * list ideal_result) * option exn :=
  match st with
  | (_, Some _) => st
  | ((out, ideal_results), None) =>
      let out := if (trial mod 10 =? 0)%Z then out ++ [Simulating_trial trial] else out in
      match index circs trial with
      | Ok row => ((out, ideal_results ++ [execute_statevector row]), None)
      | Raise e => ((out, ideal_results), Some e)
      end
  end.

(** [ideal_results = []; for trial in range(trials): ...]: the lines printed
    and the list as the cell leaves them, and the exception, if one ended
    it. *)
Definition ideal_run (circs : list (list circuit)) (trials : Z)
  : (list stdout_line * list ideal_result) * option exn :=
  fold_left (ideal_step circs) (range trials) (([], []), None).

(** The same cell as a computation: its output and its list when it runs to
    the end, the exception otherwise. *)
Definition ideal_loop (circs : list (list circuit)) (trials : Z)
  : result (list stdout_line * list ideal_result) :=
  match ideal_run circs trials with
  | (st, None) => Ok st
  | (_, Some e) => Raise e
  end.

(** The notebook's cell: [numTrials] trials on the circuits without
    measurements. *)
Definition ideal_results_cell
  : (list stdout_line * list ideal_result) * option exn :=
  ideal_run qv_circs_nomeas numTrials.

(** One iteration of the loop that fills [exp_results], with the same state
    as [ideal_step]. *)
Definition exp_step (circs : list (list circuit))
  (st : (list stdout_line * list exp_result) * option exn) (trial : Z)
  : (list stdout_line * list exp_result) * option exn :=
  match st with
  | (_, Some _) => st
  | ((out, exp_results), None) =>
      let out := if (trial mod 10 =? 0)%Z then out ++ [Running_trial trial] else out in
      match index circs trial with
      | Ok row => ((out, exp_results ++ [execute_noisy row]), None)
      | Raise e => ((out, exp_results), Some e)
      end
  end.

(** [exp_results = []; for trial in range(trials): ...]: the lines printed
    and the list as the cell leaves them, and the exception, if one ended
    it. *)
Definition exp_run (circs : list (list circuit)) (trials : Z)
  : (list stdout_line * list exp_result) * option exn :=
  fold_left (exp_step circs) (range trials) (([], []), None).

(** The same cell as a computation. *)
Definition exp_loop (circs : list (list circuit)) (trials : Z)
  : result (list stdout_line * list exp_result) :=
  match exp_run circs trials with
  | (st, None) => Ok st
  | (_, Some e) => Raise e
  end.

(** The notebook's cell: [numTrials] trials on the circuits with
    measurements. *)
Definition exp_results_cell
  : (list stdout_line * list exp_result) * option exn :=
  exp_run qv_circs numTrials.

End Experiment.

Arguments qv_circs {circuit} qv_circuits.
Arguments qv_circs_nomeas {circuit} qv_circuits.
Arguments ideal_step {circuit ideal_result} execute_statevector circs st trial.
Arguments ideal_run {circuit ideal_result} execute_statevector circs trials.
Arguments ideal_loop {circuit ideal_result} execute_statevector circs trials.
Arguments ideal_results_cell {circuit ideal_result} qv_circuits execute_statevector.
Arguments exp_step {circuit exp_result} execute_noisy circs st trial.
Arguments exp_run {circuit exp_result} execute_noisy circs trials.
Arguments exp_loop {circuit exp_result} execute_noisy circs trials.
Arguments exp_results_cell {circuit exp_result} qv_circuits execute_noisy.

(** [trial%10 == 0], the test both loops print a progress line on. *)
Definition every_tenth (trial : Z) : bool := (trial mod 10 =? 0)%Z.

(** What the last cell prints: the report of one width, then its verdict. *)
Inductive report_line (number : Type) : Type :=
| Hog_report (numQubits : Z) (hog_prob confidence : number)
| Test_passed (quantum_volume : Z)
| Test_failed.

Arguments Hog_report {number} numQubits hog_prob confidence.
Arguments Test_passed {number} quantum_volume.
Arguments Test_failed {number}.

Section Report.

(** The fitter's numbers and [np.round] belong to the libraries. *)
Variable number : Type.
Variable np_round : number -> Z -> number.

(** The body of [for qidx, qubits in enumerate(qubit_list)]; an entry of
    [qv_success_list] is the pair [[success, confidence]]. *)
Definition report_step (qv_success_list : list (bool * number))
  (qv_list : list (list number))
  (st : result (list (report_line number))) (item : Z * list Z)
  : result (list (report_line number)) :=
  out <- st ;;
  let '(qidx, qubits) := item in
  ydata0 <- index qv_list 0 ;;
  hog <- index ydata0 qidx ;;
  let hog_prob := np_round hog 5 in
  entry <- index qv_success_list qidx ;;
  let confidence := np_round (snd entry) 5 in
  let is_successful := fst entry in
  let numQubits := len qubits in
  let out := out ++ [Hog_report numQubits hog_prob confidence] in
  Ok (if is_successful then out ++ [Test_passed (2 ^ numQubits)]
      else out ++ [Test_failed]).

(** The loop of the last cell, over the widths it is given. *)
Definition report_loop (qubit_lists : list (list Z))
  (qv_success_list : list (bool * number)) (qv_list : list (list number))
  : result (list (report_line number)) :=
  fold_left (report_step qv_success_list qv_list) (enumerate qubit_lists) (Ok []).

(** The last cell, on the notebook's [qubit_list]. *)
Definition report_cell (qv_success_list : list (bool * number))
  (qv_list : list (list number)) : result (list (report_line number)) :=
  report_loop qubit_list qv_success_list qv_list.

(** The two lines the cell prints for one width, from the width's qubits,
    its mean and its success entry. *)
Definition report_lines (item : list Z * (number * (bool * number)))
  : list (report_line number) :=
  let '(qubits, (hog, entry)) := item in
  [Hog_report (len qubits) (np_round hog 5) (np_round (snd entry) 5);
   if fst entry then Test_passed (2 ^ len qubits) else Test_failed].

End Report.

Arguments report_step {number} np_round qv_success_list qv_list st item.
Arguments report_loop {number} np_round qubit_lists qv_success_list qv_list.
Arguments report_cell {number} np_round qv_success_list qv_list.
Arguments report_lines {number} np_round item.

(** A circuit generator to run the cells on: circuit (t, w, m) stands for the
    circuit of trial t at width w, with (m = true) or without its final
    measurements; the simulators return the row they were given. *)
Definition demo_circuits (qubit_lists : list (list Z)) (ntrials : Z)
  : list (list (Z * Z * bool)) * list (list (Z * Z * bool)) :=
  (map (fun t => map (fun qubits => (t, len qubits, true)) qubit_lists) (range ntrials),
   map (fun t => map (fun qubits => (t, len qubits, false)) qubit_lists) (range ntrials)).

Definition demo_execute (row : list (Z * Z * bool)) : list (Z * Z * bool) := row.

End Session3.

(** ** Optimization, Session 2: the annealing schedule *)

Module Session2.

(** [construct_schedule] is written against Python's arithmetic operators
    and runs on the number [T] it is handed, a [float] or a
    [fractions.Fraction].  [Number] is the interface of those two types: an
    integer operand (N, the loop counter, a literal) is converted to the
    type of [T]; [converts] tells whether the conversion exists, [of_int]
    is its value, and an integer that converts has all the smaller
    non-negative ones converting too.  [/] is true division, which raises
    on a zero divisor. *)
Class Number (A : Type) : Type := {
  of_int : Z -> A;
  converts : Z -> bool;
  sub : A -> A -> A;
  mul : A -> A -> A;
  is_zero : A -> bool;
  quotient : A -> A -> A;
  converts_below :
    forall i n : Z, (0 <= i <= n)%Z -> converts n = true -> converts i = true;
  zero_converts : converts 0 = true;
  zero_is_zero : is_zero (of_int 0) = true
}.

(** An integer operand of [*] or [/] beside a number of type [A]: Python
    converts it, and raises OverflowError when it is too large for the
    type. *)
Definition int_operand {A : Type} `{Number A} (z : Z) : result A :=
  if converts z then Ok (of_int z) else Raise OverflowError.

(** [x / y] *)
Definition truediv {A : Type} `{Number A} (x y : A) : result A :=
  if is_zero y then Raise ZeroDivisionError else Ok (quotient x y).

(** Exact arithmetic, as with [fractions.Fraction] arguments: every integer
    converts. *)
#[export] Instance Number_Q : Number Q := {|
  of_int := inject_Z;
  converts := fun _ => true;
  sub := Qminus;
  mul := Qmult;
  is_zero := fun q => Qeq_bool q 0;
  quotient := Qdiv;
  converts_below := fun _ _ _ _ => eq_refl;
  zero_converts := eq_refl;
  zero_is_zero := eq_refl
|}.

(** The integers from this magnitude on round to a float beyond the largest
    finite one: [float(z)] raises OverflowError for them. *)
Definition float_limit : Z := (2 ^ 1024 - 2 ^ 970)%Z.

Definition float_converts (z : Z) : bool := (Z.abs z <? float_limit)%Z.

(** [float(z)]: the binary64 float nearest to the integer, ties to even. *)
Definition float_of_int (z : Z) : float :=
  SF2Prim (binary_normalize prec emax z 0 false).

Lemma float_converts_below (i n : Z) :
  (0 <= i <= n)%Z -> float_converts n = true -> float_converts i = true.
Proof.
  unfold float_converts. intros Hi Hn.
  apply Z.ltb_lt in Hn. apply Z.ltb_lt. lia.
Qed.

Lemma float_zero_converts : float_converts 0 = true.
Proof. reflexivity. Qed.

Lemma float_zero_is_zero : PrimFloat.eqb (float_of_int 0) PrimFloat.zero = true.
Proof. vm_compute. reflexivity. Qed.

(** Python's [float]: IEEE 754 binary64, round to nearest even.  The
    instance is for a float [T].  The notebook's calls pass an int [T]:
    [T/N] on two ints is the exact quotient rounded once, which is the
    quotient of the two floats when both ints are below 2^53 in magnitude,
    as they are there; an int [T] beyond that is not modelled. *)
#[export] Instance Number_float : Number float := {|
  of_int := float_of_int;
  converts := float_converts;
  sub := PrimFloat.sub;
  mul := PrimFloat.mul;
  is_zero := fun x => PrimFloat.eqb x PrimFloat.zero;
  quotient := PrimFloat.div;
  converts_below := float_converts_below;
  zero_converts := float_zero_converts;
  zero_is_zero := float_zero_is_zero
|}.

Section Schedule.

Context {A : Type} `{Number A}.

(** The body of [for i in range(N+1)]:
[[
    t = i * delta_t
    gammas += [ 2 * delta_t * t/T ]
    betas += [ -2 * delta_t * (1 - t/T) ]
]] *)
Definition schedule_step (T delta_t : A) (st : result (list A * list A)) (i : Z)
  : result (list A * list A) :=
  '(gammas, betas) <- st ;;
  i' <- int_operand i ;;
  let t := mul i' delta_t in
  g <- truediv (mul (mul (of_int 2) delta_t) t) T ;;
  q <- truediv t T ;;
  Ok (gammas ++ [g],
      betas ++ [mul (mul (of_int (-2)) delta_t) (sub (of_int 1) q)]).

(** [def construct_schedule(T, N)] *)
Definition construct_schedule (T : A) (N : Z) : result (list A * list A) :=
  N' <- int_operand N ;;
  delta_t <- truediv T N' ;;
  fold_left (schedule_step T delta_t) (range (N + 1)) (Ok ([], [])).

(** The entry the loop appends to [gammas] at counter [i], when no division
    raises. *)
Definition gamma_at (T delta_t : A) (i : Z) : A :=
  quotient (mul (mul (of_int 2) delta_t) (mul (of_int i) delta_t)) T.

(** The entry the loop appends to [betas] at counter [i], when no division
    raises. *)
Definition beta_at (T delta_t : A) (i : Z) : A :=
  mul (mul (of_int (-2)) delta_t)
      (sub (of_int 1) (quotient (mul (of_int i) delta_t) T)).

End Schedule.

(** *** The basis states of lowest energy *)

(** [x < y] on rationals. *)
Definition Qlt_bool (x y : Q) : bool := negb (Qle_bool y x).

(** [min(d)]: the first smallest entry; [None] stands for the [ValueError]
    Python raises on an empty sequence.  The entries are the diagonal of a
    real matrix, compared exactly. *)
Definition py_min (d : list Q) : option Q :=
  match d with
  | [] => None
  | x :: l => Some (fold_left (fun best v => if Qlt_bool v best then v else best) l x)
  end.

(** [np.where(d == m)[0]]: the positions of the entries equal to [m], in
    increasing order. *)
Definition where_eq (d : list Q) (m : Q) : list Z :=
  map fst (filter (fun iv => Qeq_bool (snd iv) m) (enumerate d)).

(** [opt_indices = list(np.where(d == min(d)))[0]] for
    [d = H_matrix.diagonal()]. *)
Definition opt_indices (d : list Q) : option (list Z) :=
  match py_min d with
  | None => None
  | Some m => Some (where_eq d m)
  end.

(** [probabilities[opt_indices]]: the entries at the listed positions; a
    position out of range raises [IndexError]. *)
Definition take {A : Type} (probabilities : list A) (indices : list Z)
  : result (list A) :=
  traverse (index probabilities) indices.

(** *** The MaxCut objective *)

(** The value at an assignment [x] of
    [mdl.sum([ w * (x[i] + x[j] - 2*x[i]*x[j]) for (i, j, w) in edges])]. *)
Definition objective (edges : list (Z * Z * Q)) (x : list Q) : result Q :=
  terms <- traverse (fun e =>
             let '(i, j, w) := e in
             xi <- index x i ;;
             xj <- index x j ;;
             Ok (w * (xi + xj - 2 * xi * xj))) edges ;;
  Ok (fold_left Qplus terms 0).

(** [edges = [(0, 1, 1.0), (0, 2, 1.0), (0, 3, 1.0), (1, 2, 1.0),
    (2, 3, 1.0), (2, 4, 1.0), (3, 4, 1.0)]] *)
Definition edges : list (Z * Z * Q) :=
  [(0%Z, 1%Z, 1); (0%Z, 2%Z, 1); (0%Z, 3%Z, 1); (1%Z, 2%Z, 1);
   (2%Z, 3%Z, 1); (2%Z, 4%Z, 1); (3%Z, 4%Z, 1)].

(** The entry of an assignment at a node. *)
Definition value_at (x : list Q) (i : Z) : Q := nth (Z.to_nat i) x 0.

(** The weight of the cut an assignment makes: the sum of the weights of the
    edges whose two ends have different values. *)
Definition cut_weight (edges : list (Z * Z * Q)) (x : list Q) : Q :=
  fold_left Qplus
    (map (fun e : Z * Z * Q =>
            let '(i, j, w) := e in
            if Qeq_bool (value_at x i) (value_at x j) then 0 else w) edges)
    0.

(** Both ends of every edge are nodes of the assignment. *)
Definition edges_within (edges : list (Z * Z * Q)) (x : list Q) : Prop :=
  Forall (fun e : Z * Z * Q =>
            (0 <= fst (fst e) < len x)%Z /\ (0 <= snd (fst e) < len x)%Z) edges.

(** Every variable is 0 or 1. *)
Definition binary (x : list Q) : Prop := Forall (fun v => v == 0 \/ v == 1) x.

(** *** Node colours of [plot_result] *)

(** ['r'] and ['b']. *)
Inductive colour : Type := colour_r | colour_b.

(** [colors = ['r' if x[i] == 0 else 'b' for i in range(n)]], the first
    statement of [plot_result(G, x)]; [n] is the notebook's global. *)
Definition plot_result_colors (n : Z) (x : list Q) : result (list colour) :=
  traverse (fun i => xi <- index x i ;; Ok (if Qeq_bool xi 0 then colour_r else colour_b))
           (range n).

(** The colour of a node with value [xi]: ['r' if xi == 0 else 'b']. *)
Definition colour_of (xi : Q) : colour := if Qeq_bool xi 0 then colour_r else colour_b.

(** *** Trotterized annealing on one qubit *)

(** The instructions the cell appends to its circuit. *)
Inductive instruction (A : Type) : Type :=
| H_gate (qubit : Z)
| Barrier
| RZ (theta : A) (qubit : Z)
| RX (theta : A) (qubit : Z).

Arguments H_gate {A} qubit.
Arguments Barrier {A}.
Arguments RZ {A} theta qubit.
Arguments RX {A} theta qubit.

Section Trotter.

(** The angles, the probabilities and the simulator belong to the library:
    [simulate qc] is [Statevector.from_instruction(qc).probabilities()], the
    probabilities of the two basis states. *)
Variable A : Type.
Variable P : Type.
Variable simulate : list (instruction A) -> P * P.

(** [qc = QuantumCircuit(1); qc.h(0); qc.barrier()] *)
Definition initial_circuit : list (instruction A) := [H_gate 0; Barrier].

(** [qc.rz(gamma, 0); qc.rx(beta, 0); qc.barrier()] *)
Definition layer (angles : A * A) : list (instruction A) :=
  [RZ (fst angles) 0; RX (snd angles) 0; Barrier].

(** The body of [for i, (gamma, beta) in enumerate(zip(gammas, betas))];
    the array [probabilities] is kept as the list of its columns. *)
Definition trotter_step (st : result (list (instruction A) * list (P * P)))
  (item : Z * (A * A)) : result (list (instruction A) * list (P * P)) :=
  '(qc, probabilities) <- st ;;
  let '(i, angles) := item in
  let qc := qc ++ layer angles in
  probabilities <- setitem probabilities i (simulate qc) ;;
  Ok (qc, probabilities).

(** The loop of the cell, from the array [np.zeros((2, N+1))] it is given. *)
Definition trotter_loop (probabilities : list (P * P)) (gammas betas : list A)
  : result (list (instruction A) * list (P * P)) :=
  fold_left trotter_step (enumerate (zip gammas betas))
            (Ok (initial_circuit, probabilities)).

(** What the simulator returns once the first [j + 1] of the layers [zs]
    have been appended to [qc]. *)
Definition column (qc : list (instruction A)) (zs : list (A * A)) (j : nat) : P * P :=
  simulate (qc ++ flat_map layer (firstn (S j) zs)).

End Trotter.

Arguments initial_circuit {A}.
Arguments layer {A} angles.
Arguments trotter_step {A P} simulate st item.
Arguments trotter_loop {A P} simulate probabilities gammas betas.
Arguments column {A P} simulate qc zs j.

(** A simulator to run the cell on: it reports the size of the circuit. *)
Definition demo_simulate {A : Type} (qc : list (instruction A)) : nat * nat :=
  (length qc, 0%nat).

(** A diagonal with its minimum at two places, and probabilities to go
    with its four basis states. *)
Definition demo_diagonal : list Q := [3 # 1; -1 # 1; 2 # 1; -1 # 1].

Definition demo_probabilities : list Q := [1 # 10; 2 # 10; 3 # 10; 4 # 10].

End Session2.

(** ** Optimization, Session 2: the tick labels of the bar plots *)

Module Labels.

Import Ascii String.
#[local] Open Scope string_scope.

(** [str(i)] *)
Definition str (i : Z) : string := DecimalString.NilZero.string_of_int (Z.to_int i).

(** The binary digits of the magnitude of [i], most significant first. *)
Definition bin_digits (i : Z) : string :=
  match i with
  | Z0 => "0"
  | Zpos p => BinaryString.Raw.of_pos p ""
  | Zneg p => BinaryString.Raw.of_pos p ""
  end.

Fixpoint zeros (n : nat) : string :=
  match n with
  | O => ""
  | S n' => String "0"%char (zeros n')
  end.

(** Zero padding on the left, up to [width] characters; longer digit strings
    are kept whole. *)
Definition zero_pad (width : nat) (digits : string) : string :=
  zeros (width - length digits) ++ digits.

(** [format(i, '05b')]: binary, padded with zeros to five characters, the
    sign (of a negative [i]) first. *)
Definition format_05b (i : Z) : string :=
  if (i <? 0)%Z then "-" ++ zero_pad 4 (bin_digits i)
  else zero_pad 5 (bin_digits i).

(** ['('+str(i)+') {0:05b}'.format(i)] *)
Definition tick_label (i : Z) : string :=
  "(" ++ str i ++ ") " ++ format_05b i.

(** [['('+str(i)+') {0:05b}'.format(i) for i in range(2**n)]] *)
Definition tick_labels (n : Z) : list string :=
  map tick_label (range (2 ^ n)).

(** The number a string of binary digits denotes, [int(s, 2)]. *)
Definition binary_value (s : string) : N := BinaryString.Raw.to_N s 0.

End Labels.

(** ** The heavy-output statistical test

    The notebook hands each trial's results to the fitter of the
    quantum-volume module ([QVFitter.add_statevectors], [add_data]); the
    fitter's code is not among the notebook cells.  The definitions of this
    module follow the specification's description of the per-trial
    computation (sections 3 and 4.1). *)

Module HeavyOutput.

(** Modelled from the spec: a bitstring of length w, the key of the ideal
    distribution and of the observed counts ([QVFitter] itself is missing). *)
Definition bitstring : Type := list bool.

(** Modelled from the spec: a mapping from bitstring to a value, kept as the
    list of its items (the mappings the missing fitter receives). *)
Definition dict (V : Type) : Type := list (bitstring * V).

Definition keys {V : Type} (d : dict V) : list bitstring := map fst d.

Definition values {V : Type} (d : dict V) : list V := map snd d.

Definition bitstring_eqb (a b : bitstring) : bool :=
  if list_eq_dec bool_dec a b then true else false.

(** [b in H] *)
Definition mem (b : bitstring) (H : list bitstring) : bool :=
  existsb (bitstring_eqb b) H.

(** Modelled from the spec: the 2^w bitstrings of length w, the outcome space
    of a width-w circuit (the missing fitter enumerates them from the
    statevector). *)
Fixpoint bitstrings (w : nat) : list bitstring :=
  match w with
  | O => [[]]
  | S w' => map (cons false) (bitstrings w') ++ map (cons true) (bitstrings w')
  end.

(** Modelled from the spec: an ideal distribution or a table of counts [over
    the 2^w bitstrings] has each of them as a key, once. *)
Definition full_enumeration {V : Type} (w : nat) (d : dict V) : Prop :=
  Permutation (keys d) (bitstrings w).

(** [x > y] on rationals. *)
Definition Qgt_bool (x y : Q) : bool := negb (Qle_bool x y).

Fixpoint insert (x : Q) (l : list Q) : list Q :=
  match l with
  | [] => [x]
  | y :: l' => if Qle_bool x y then x :: l else y :: insert x l'
  end.

Definition sort (l : list Q) : list Q := fold_right insert [] l.

(** Modelled from the spec: [Compute median m of the values of P]; the middle
    value of the sorted values, the mean of the two middle ones when their
    number is even.  No values, no median: a domain error (the missing
    fitter's median step). *)
Definition median (vs : list Q) : result Q :=
  let s := sort vs in
  let n := length s in
  match n with
  | O => Raise DomainError
  | _ =>
      if Nat.even n
      then Ok ((nth (n / 2 - 1) s 0 + nth (n / 2) s 0) / 2)
      else Ok (nth (n / 2) s 0)
  end.

(** Modelled from the spec: [Heavy set H = { bitstring b : P[b] > m }], in
    the order of the distribution's items (the missing fitter's heavy-output
    step). *)
Definition heavy_set (P : dict Q) : result (list bitstring) :=
  m <- median (values P) ;;
  Ok (keys (filter (fun kv => Qgt_bool (snd kv) m) P)).

(** Modelled from the spec: [the complementary (non-heavy) set] of a heavy
    set among the bitstrings of the distribution (missing with the fitter). *)
Definition complement (P : dict Q) (H : list bitstring) : list bitstring :=
  filter (fun b => negb (mem b H)) (keys P).

(** Modelled from the spec: [shot total S = sum(C)] (missing with the
    fitter). *)
Definition shots (C : dict nat) : nat := fold_right Nat.add 0%nat (values C).

(** Modelled from the spec: [observed count mass falling in] a set of
    bitstrings (missing with the fitter). *)
Definition count_in (H : list bitstring) (C : dict nat) : nat :=
  fold_right Nat.add 0%nat (values (filter (fun kv => mem (fst kv) H) C)).

Definition Q_of_nat (n : nat) : Q := inject_Z (Z.of_nat n).

(** Modelled from the spec: the count mass falling in a set of bitstrings
    [divided by total shots]; zero shots are a domain error (missing with
    the fitter). *)
Definition frequency_over (H : list bitstring) (C : dict nat) : result Q :=
  let S := shots C in
  if (S =? 0)%nat then Raise DomainError
  else Ok (Q_of_nat (count_in H C) / Q_of_nat S).

(** Modelled from the spec: the per-trial heavy-output frequency of observed
    counts C against the ideal distribution P (the missing fitter's
    per-trial step). *)
Definition heavy_output_frequency (P : dict Q) (C : dict nat) : result Q :=
  H <- heavy_set P ;;
  frequency_over H C.

(** Modelled from the spec: the frequency of the non-heavy bitstrings of P in
    the counts C (missing with the fitter). *)
Definition non_heavy_frequency (P : dict Q) (C : dict nat) : result Q :=
  H <- heavy_set P ;;
  frequency_over (complement P H) C.

(** An ideal distribution over the four 2-bit outcomes. *)
Definition demo_P : dict Q :=
  [([false; false], 1 # 10); ([false; true], 2 # 10);
   ([true; false], 3 # 10); ([true; true], 4 # 10)].

(** The uniform distribution over the four 2-bit outcomes. *)
Definition demo_uniform : dict Q :=
  [([false; false], 1 # 4); ([false; true], 1 # 4);
   ([true; false], 1 # 4); ([true; true], 1 # 4)].

(** Ten shots; the outcome 00 was never observed. *)
Definition demo_C : dict nat :=
  [([false; true], 3%nat); ([true; true], 5%nat); ([true; false], 2%nat)].

End HeavyOutput.

(** * Properties *)

Import Session3 Session2 HeavyOutput.

(** ** Python lists and results *)

Lemma range_succ (n : nat) :
  range (Z.of_nat (S n)) = range (Z.of_nat n) ++ [Z.of_nat n].
Proof.
  unfold range, range2.
  rewrite !Z.sub_0_r, !Nat2Z.id, seq_S, map_app.
  reflexivity.
Qed.

Lemma range_length (n : Z) : length (range n) = Z.to_nat n.
Proof.
  unfold range, range2.
  now rewrite length_map, length_seq, Z.sub_0_r.
Qed.

Lemma range_of_nat (n : nat) : range (Z.of_nat n) = map Z.of_nat (seq 0 n).
Proof.
  unfold range, range2.
  now rewrite Z.sub_0_r, Nat2Z.id.
Qed.

Lemma index_nonneg {A : Type} (l : list A) (i : nat) (a : A) :
  nth_error l i = Some a -> index l (Z.of_nat i) = Ok a.
Proof.
  intros Hi. unfold index.
  destruct (Z.of_nat i <? 0)%Z eqn:Hneg; [apply Z.ltb_lt in Hneg; lia|].
  rewrite Hneg, Nat2Z.id, Hi. reflexivity.
Qed.

Lemma index_map_range {A : Type} (f : Z -> A) (n : nat) (i : nat) :
  (i < n)%nat -> index (map f (range (Z.of_nat n))) (Z.of_nat i) = Ok (f (Z.of_nat i)).
Proof.
  intros Hi. apply index_nonneg.
  rewrite range_of_nat, nth_error_map, nth_error_map.
  rewrite (nth_error_nth' _ 0%nat) by (now rewrite length_seq).
  rewrite seq_nth by assumption. reflexivity.
Qed.

(** ** Session 3: the experiment design *)

(** C9: the hard-coded [qubit_list] is exactly [range(2)], [range(3)],
    [range(4)], [range(5)]: four entries, the k-th of length k + 2, so every
    width of the experiment is an integer between 2 and 5. *)
Theorem qubit_list_widths :
  qubit_list = map range [2; 3; 4; 5]%Z /\
  qubit_list = [[0; 1]; [0; 1; 2]; [0; 1; 2; 3]; [0; 1; 2; 3; 4]]%Z /\
  length qubit_list = 4%nat /\
  (forall k, (k < 4)%nat ->
     exists qubits, nth_error qubit_list k = Some qubits /\
                    length qubits = (k + 2)%nat) /\
  Forall (fun qubits => (2 <= len qubits <= 5)%Z) qubit_list.
Proof.
  repeat split.
  - intros k Hk.
    destruct k as [|[|[|[|k]]]]; try lia;
      eexists; (split; [reflexivity | reflexivity]).
  - repeat constructor; cbv; discriminate.
Qed.

Lemma firstn_succ_nth {A : Type} (l : list A) (n : nat) (a : A) :
  nth_error l n = Some a -> firstn (S n) l = firstn n l ++ [a].
Proof.
  revert n; induction l as [|x l IH]; intros [|n] Hn; simpl in *; try discriminate.
  - now inversion Hn.
  - now rewrite (IH n Hn).
Qed.

Lemma range_In (n i : Z) : In i (range n) <-> (0 <= i < n)%Z.
Proof.
  unfold range, range2. rewrite in_map_iff. split.
  - intros (k & <- & Hk). apply in_seq in Hk. lia.
  - intros Hi. exists (Z.to_nat i). split; [lia|]. apply in_seq. lia.
Qed.

(** ** Session 2: the annealing schedule *)

Section ScheduleFacts.

Context {A : Type} `{Number A}.

Lemma schedule_fold (T delta_t : A) :
  is_zero T = false ->
  forall (l : list Z) (gs bs : list A),
    (forall i, In i l -> converts i = true) ->
    fold_left (schedule_step T delta_t) l (Ok (gs, bs))
    = Ok (gs ++ map (gamma_at T delta_t) l, bs ++ map (beta_at T delta_t) l).
Proof.
  intros HT. induction l as [|i l IH]; intros gs bs Hl; cbn [fold_left map].
  - now rewrite !app_nil_r.
  - unfold schedule_step at 2. unfold bind, int_operand, truediv.
    rewrite (Hl i (or_introl eq_refl)), HT.
    rewrite IH by (intros j Hj; apply Hl; now right).
    rewrite <- !app_assoc. reflexivity.
Qed.

(** Every loop counter converts when [N] does. *)
Lemma counters_convert (N : Z) :
  converts N = true -> forall i, In i (range (N + 1)) -> converts i = true.
Proof.
  intros HN i Hi. apply range_In in Hi.
  apply (converts_below i N); [lia | exact HN].
Qed.

(** With a non-zero [T] and an [N] that converts to a non-zero number,
    nothing raises, and the two lists are the loop's entries for the
    counters [0 .. N]. *)
Lemma construct_schedule_entries (T : A) (N : Z) :
  is_zero T = false ->
  converts N = true ->
  is_zero (of_int N) = false ->
  construct_schedule T N
  = Ok (map (gamma_at T (quotient T (of_int N))) (range (N + 1)),
        map (beta_at T (quotient T (of_int N))) (range (N + 1))).
Proof.
  intros HT HC HN. unfold construct_schedule, int_operand, truediv, bind.
  rewrite HC, HN.
  now rewrite (schedule_fold _ _ HT) by (now apply counters_convert).
Qed.

(** Division by [N = 0] raises before the loop starts. *)
Lemma construct_schedule_zero_steps (T : A) (N : Z) :
  converts N = true ->
  is_zero (of_int N) = true ->
  construct_schedule T N = Raise ZeroDivisionError.
Proof.
  intros HC HN. unfold construct_schedule, int_operand, truediv, bind.
  now rewrite HC, HN.
Qed.

(** For a negative [N] the loop body never runs. *)
Lemma construct_schedule_no_steps (T : A) (N : Z) :
  (N < 0)%Z ->
  converts N = true ->
  is_zero (of_int N) = false ->
  construct_schedule T N = Ok ([], []).
Proof.
  intros Hneg HC HN. unfold construct_schedule, int_operand, truediv, bind.
  rewrite HC, HN.
  unfold range, range2. replace (Z.to_nat (N + 1 - 0)) with 0%nat by lia.
  reflexivity.
Qed.

(** An [N] too large for the type of [T] raises at [T/N], before the loop
    starts. *)
Lemma construct_schedule_overflow (T : A) (N : Z) :
  converts N = false ->
  construct_schedule T N = Raise OverflowError.
Proof.
  intros HC. unfold construct_schedule, int_operand, bind. now rewrite HC.
Qed.

End ScheduleFacts.

Lemma Q_is_zero_false (q : Q) : ~ q == 0 -> is_zero q = false.
Proof.
  intros Hq. simpl. destruct (Qeq_bool q 0) eqn:E; [|reflexivity].
  apply Qeq_bool_iff in E. contradiction.
Qed.

Lemma inject_Z_nonzero (z : Z) : z <> 0%Z -> ~ inject_Z z == 0.
Proof.
  intros Hz E. unfold Qeq in E. simpl in E. lia.
Qed.

(** C10 (in exact arithmetic): for every rational T > 0 and every integer
    N >= 1, [construct_schedule(T, N)] returns two lists of length N + 1 with
    gammas[i] = 2*T*i/N^2 and betas[i] = -2*(T/N)*(1 - i/N) for every i in
    0..N; so gammas[0] = 0, betas[N] = 0 and gammas[i] - betas[i] = 2*T/N. *)
Theorem construct_schedule_closed_form (T : Q) (N : Z) :
  0 < T -> (1 <= N)%Z ->
  exists gammas betas,
    construct_schedule T N = Ok (gammas, betas) /\
    len gammas = (N + 1)%Z /\
    len betas = (N + 1)%Z /\
    (forall i, (0 <= i <= N)%Z ->
       exists g b,
         index gammas i = Ok g /\
         index betas i = Ok b /\
         g == 2 * T * inject_Z i / inject_Z N ^ 2 /\
         b == - (2) * (T / inject_Z N) * (1 - inject_Z i / inject_Z N) /\
         g - b == 2 * T / inject_Z N) /\
    (exists g0, index gammas 0 = Ok g0 /\ g0 == 0) /\
    (exists bN, index betas N = Ok bN /\ bN == 0).
Proof.
  intros HT HN.
  assert (HT0 : ~ T == 0) by (intro E; rewrite E in HT; discriminate).
  assert (HN0 : ~ inject_Z N == 0) by (apply inject_Z_nonzero; lia).
  rewrite (construct_schedule_entries T N)
    by (try reflexivity; apply Q_is_zero_false; assumption).
  do 2 eexists. split; [reflexivity|].
  unfold len. rewrite !length_map, range_length.
  split; [lia|]. split; [lia|].
  assert (Hidx : forall i, (0 <= i <= N)%Z ->
            index (map (gamma_at T (quotient T (of_int N))) (range (N + 1))) i
            = Ok (gamma_at T (quotient T (of_int N)) i) /\
            index (map (beta_at T (quotient T (of_int N))) (range (N + 1))) i
            = Ok (beta_at T (quotient T (of_int N)) i)).
  { intros i Hi.
    replace (N + 1)%Z with (Z.of_nat (Z.to_nat (N + 1))) by lia.
    replace i with (Z.of_nat (Z.to_nat i)) at 1 3 by lia.
    rewrite !index_map_range by lia.
    now replace (Z.of_nat (Z.to_nat i)) with i by lia. }
  split; [|split].
  - intros i Hi. destruct (Hidx i Hi) as [Hg Hb].
    do 2 eexists. split; [exact Hg|]. split; [exact Hb|].
    unfold gamma_at, beta_at. simpl.
    repeat split; field; auto.
  - destruct (Hidx 0%Z ltac:(lia)) as [Hg _].
    eexists. split; [exact Hg|].
    unfold gamma_at. simpl. field; auto.
  - destruct (Hidx N ltac:(lia)) as [_ Hb].
    eexists. split; [exact Hb|].
    unfold beta_at. simpl. field; auto.
Qed.

Lemma construct_schedule_closed_form_witness :
  exists gammas betas,
    construct_schedule (5 # 1) 10 = Ok (gammas, betas) /\
    len gammas = (10 + 1)%Z /\
    len betas = (10 + 1)%Z /\
    (forall i, (0 <= i <= 10)%Z ->
       exists g b,
         index gammas i = Ok g /\
         index betas i = Ok b /\
         g == 2 * (5 # 1) * inject_Z i / inject_Z 10 ^ 2 /\
         b == - (2) * ((5 # 1) / inject_Z 10) * (1 - inject_Z i / inject_Z 10) /\
         g - b == 2 * (5 # 1) / inject_Z 10) /\
    (exists g0, index gammas 0 = Ok g0 /\ g0 == 0) /\
    (exists bN, index betas 10 = Ok bN /\ bN == 0).
Proof.
  apply (construct_schedule_closed_form (5 # 1) 10); [reflexivity | lia].
Defined.

(** With Python's floats the closed forms are not exact: called as
    [construct_schedule(1, 49)], the last entry of [betas] is not zero
    ([49 * (1/49)] rounds to the float just below 1). *)
Lemma construct_schedule_float_last_beta :
  exists gammas betas bN,
    construct_schedule (of_int 1 : float) 49 = Ok (gammas, betas) /\
    len betas = (49 + 1)%Z /\
    index betas 49 = Ok bN /\
    PrimFloat.eqb bN PrimFloat.zero = false /\
    PrimFloat.ltb bN PrimFloat.zero = true.
Proof.
  do 3 eexists.
  split; [vm_compute; reflexivity|].
  repeat split; vm_compute; reflexivity.
Qed.

(** The notebook's own calls, [construct_schedule(5, 10)] and
    [construct_schedule(10, 20)], run on floats: both lists have N + 1
    entries, the first gamma and the last beta compare equal to zero. *)
Example construct_schedule_notebook_calls :
  (exists gammas betas g0 bN,
     construct_schedule (of_int 5 : float) 10 = Ok (gammas, betas) /\
     len gammas = 11%Z /\ len betas = 11%Z /\
     index gammas 0 = Ok g0 /\ PrimFloat.eqb g0 PrimFloat.zero = true /\
     index betas 10 = Ok bN /\ PrimFloat.eqb bN PrimFloat.zero = true) /\
  (exists gammas betas g0 bN,
     construct_schedule (of_int 10 : float) 20 = Ok (gammas, betas) /\
     len gammas = 21%Z /\ len betas = 21%Z /\
     index gammas 0 = Ok g0 /\ PrimFloat.eqb g0 PrimFloat.zero = true /\
     index betas 20 = Ok bN /\ PrimFloat.eqb bN PrimFloat.zero = true).
Proof.
  split; do 4 eexists;
    (split; [vm_compute; reflexivity|]);
    repeat split; vm_compute; reflexivity.
Qed.

(** ** The heavy-output test: bitstrings and mappings *)

Lemma bitstring_eqb_eq (a b : bitstring) : bitstring_eqb a b = true <-> a = b.
Proof.
  unfold bitstring_eqb.
  destruct (list_eq_dec bool_dec a b); split; intros; congruence.
Qed.

Lemma bitstring_eqb_refl (a : bitstring) : bitstring_eqb a a = true.
Proof. now apply bitstring_eqb_eq. Qed.

Lemma bitstring_eqb_neq (a b : bitstring) : bitstring_eqb a b = false <-> a <> b.
Proof.
  rewrite <- bitstring_eqb_eq. destruct (bitstring_eqb a b); split; congruence.
Qed.

Lemma mem_In (b : bitstring) (H : list bitstring) : mem b H = true <-> In b H.
Proof.
  unfold mem. rewrite existsb_exists. split.
  - intros (x & Hx & E). apply bitstring_eqb_eq in E. now subst.
  - intros Hb. exists b. split; [assumption | apply bitstring_eqb_refl].
Qed.

Lemma mem_not_In (b : bitstring) (H : list bitstring) : mem b H = false <-> ~ In b H.
Proof.
  rewrite <- mem_In. destruct (mem b H); split; congruence.
Qed.

Lemma bitstrings_length (w : nat) (b : bitstring) :
  In b (bitstrings w) <-> length b = w.
Proof.
  revert b; induction w as [|w IH]; intros b; simpl.
  - split; [intros [<-|[]]; reflexivity|].
    destruct b; [now left | discriminate].
  - rewrite in_app_iff, !in_map_iff. split.
    + intros [(x & <- & Hx)|(x & <- & Hx)]; simpl; f_equal; now apply IH.
    + destruct b as [|[|] b]; simpl; intros E; try discriminate;
        [right | left]; exists b; (split; [reflexivity | apply IH; lia]).
Qed.

Lemma bitstrings_NoDup (w : nat) : NoDup (bitstrings w).
Proof.
  induction w as [|w IH]; simpl.
  - constructor; [intros [] | constructor].
  - apply NoDup_app.
    + apply Finite.Injective_map_NoDup_in; [|assumption]. intros x y _ _ E. now inversion E.
    + apply Finite.Injective_map_NoDup_in; [|assumption]. intros x y _ _ E. now inversion E.
    + intros a Ha Hb. apply in_map_iff in Ha as (x & <- & _).
      apply in_map_iff in Hb as (y & E & _). discriminate.
Qed.

Lemma bitstrings_count (w : nat) : length (bitstrings w) = (2 ^ w)%nat.
Proof.
  induction w as [|w IH]; [reflexivity|].
  cbn [bitstrings]. rewrite length_app, !length_map, Nat.pow_succ_r'.
  unfold bitstring in *. lia.
Qed.

Lemma full_enumeration_NoDup {V : Type} (w : nat) (d : dict V) :
  full_enumeration w d -> NoDup (keys d).
Proof.
  intros Hd. apply (Permutation_NoDup (Permutation_sym Hd)), bitstrings_NoDup.
Qed.

Lemma full_enumeration_size {V : Type} (w : nat) (d : dict V) :
  full_enumeration w d -> length d = (2 ^ w)%nat.
Proof.
  intros Hd. apply Permutation_length in Hd.
  unfold keys in Hd. now rewrite length_map, bitstrings_count in Hd.
Qed.

Lemma full_enumeration_keys {V : Type} (w : nat) (d : dict V) (b : bitstring) :
  full_enumeration w d -> (In b (keys d) <-> length b = w).
Proof.
  intros Hd. rewrite <- bitstrings_length. split; apply Permutation_in.
  - exact Hd.
  - now apply Permutation_sym.
Qed.

(** ** The heavy-output test: the median *)

Lemma insert_Permutation (x : Q) (l : list Q) : Permutation (insert x l) (x :: l).
Proof.
  induction l as [|y l IH]; simpl; [reflexivity|].
  destruct (Qle_bool x y); [reflexivity|].
  rewrite IH. apply perm_swap.
Qed.

Lemma sort_Permutation (l : list Q) : Permutation (sort l) l.
Proof.
  induction l as [|x l IH]; simpl; [reflexivity|].
  unfold sort in *. simpl. rewrite insert_Permutation. now constructor.
Qed.

Lemma sort_length (l : list Q) : length (sort l) = length l.
Proof. apply Permutation_length, sort_Permutation. Qed.

Lemma median_defined (vs : list Q) : vs <> [] -> exists m, median vs = Ok m.
Proof.
  intros Hvs. unfold median. rewrite sort_length.
  destruct vs as [|v vs]; [congruence|]. cbn [length].
  destruct (Nat.even (S (length vs))); eexists; reflexivity.
Qed.

Lemma Qgt_bool_iff (x y : Q) : Qgt_bool x y = true <-> y < x.
Proof.
  unfold Qgt_bool. rewrite negb_true_iff. split.
  - intros E. apply Qnot_le_lt. intros Hle. apply Qle_bool_iff in Hle. congruence.
  - intros Hlt. destruct (Qle_bool x y) eqn:E; [|reflexivity].
    apply Qle_bool_iff in E. exfalso. now apply (Qlt_not_le _ _ Hlt).
Qed.

(** The median of values that all equal [p] is [p]. *)
Lemma median_constant (vs : list Q) (p : Q) :
  vs <> [] -> Forall (fun q => q == p) vs ->
  exists m, median vs = Ok m /\ m == p.
Proof.
  intros Hvs Hall.
  assert (Hs : Forall (fun q => q == p) (sort vs)).
  { apply Forall_forall. intros q Hq. rewrite Forall_forall in Hall.
    apply Hall. now apply (Permutation_in _ (sort_Permutation vs)). }
  assert (Hnth : forall i, (i < length (sort vs))%nat -> nth i (sort vs) 0 == p).
  { intros i Hi. rewrite Forall_forall in Hs. apply Hs. now apply nth_In. }
  unfold median.
  assert (Hlen : length (sort vs) <> 0%nat).
  { rewrite sort_length. destruct vs; simpl; congruence. }
  destruct (length (sort vs)) as [|n] eqn:Elen; [congruence|].
  destruct (Nat.even (S n)) eqn:Eeven.
  - eexists. split; [reflexivity|].
    assert (Hhalf : (S n / 2 < S n)%nat) by (apply Nat.div_lt; lia).
    rewrite !Hnth by lia. field.
  - eexists. split; [reflexivity|].
    apply Hnth. apply Nat.div_lt; lia.
Qed.

(** ** The heavy-output test: the heavy set *)

Lemma heavy_set_of_median (P : dict Q) (m : Q) :
  median (values P) = Ok m ->
  heavy_set P = Ok (keys (filter (fun kv => Qgt_bool (snd kv) m) P)).
Proof. intros Hm. unfold heavy_set. now rewrite Hm. Qed.

Lemma full_enumeration_nonempty {V : Type} (w : nat) (d : dict V) :
  full_enumeration w d -> values d <> [].
Proof.
  intros Hd. pose proof (full_enumeration_size w d Hd) as Hlen.
  assert (2 ^ w <> 0)%nat by (apply Nat.pow_nonzero; lia).
  destruct d; simpl in *; [lia | discriminate].
Qed.

(** ** The heavy-output test: counts and frequencies *)

Lemma count_in_cons (H : list bitstring) (k : bitstring) (c : nat) (C : dict nat) :
  count_in H ((k, c) :: C) = ((if mem k H then c else 0) + count_in H C)%nat.
Proof. unfold count_in. simpl. destruct (mem k H); reflexivity. Qed.

Lemma frequency_over_defined (H : list bitstring) (C : dict nat) :
  (0 < shots C)%nat ->
  frequency_over H C = Ok (Q_of_nat (count_in H C) / Q_of_nat (shots C)).
Proof.
  intros HS. unfold frequency_over.
  destruct (shots C =? 0)%nat eqn:E; [apply Nat.eqb_eq in E; lia | reflexivity].
Qed.

Lemma Q_of_nat_pos (n : nat) : (0 < n)%nat -> ~ Q_of_nat n == 0.
Proof.
  intros Hn. apply inject_Z_nonzero. lia.
Qed.

(** C4: for every width w and every uniform ideal distribution over the 2^w
    bitstrings (all probabilities equal to some p) the heavy set is empty,
    and the per-trial heavy-output frequency is 0 for all observed counts
    with a positive shot total. *)
Theorem uniform_distribution_no_heavy (w : nat) (P : dict Q) (p : Q) :
  full_enumeration w P ->
  Forall (fun q => q == p) (values P) ->
  heavy_set P = Ok [] /\
  forall C, (0 < shots C)%nat ->
    exists f, heavy_output_frequency P C = Ok f /\ f == 0.
Proof.
  intros HP Hall.
  destruct (median_constant (values P) p (full_enumeration_nonempty w P HP) Hall)
    as (m & Hm & Hmp).
  assert (HH : heavy_set P = Ok []).
  { rewrite (heavy_set_of_median P m Hm). f_equal.
    replace (filter (fun kv => Qgt_bool (snd kv) m) P) with (@nil (bitstring * Q));
      [reflexivity|].
    symmetry. unfold values in Hall. clear -Hall Hmp.
    induction P as [|[b q] P IH]; [reflexivity|].
    inversion Hall as [|? ? Hq HP]; subst. simpl in *.
    destruct (Qgt_bool q m) eqn:E; [|now apply IH].
    apply Qgt_bool_iff in E. rewrite Hq, Hmp in E.
    exfalso. exact (Qlt_irrefl p E). }
  split; [exact HH|].
  intros C HS. unfold heavy_output_frequency. rewrite HH. simpl.
  rewrite frequency_over_defined by assumption.
  eexists. split; [reflexivity|].
  assert (E : count_in [] C = 0%nat).
  { clear. induction C as [|[k c] C IH]; [reflexivity|].
    now rewrite count_in_cons, IH. }
  rewrite E. unfold Q_of_nat at 1. simpl.
  field. now apply Q_of_nat_pos.
Qed.

Lemma mem_complement (P : dict Q) (H : list bitstring) (b : bitstring) :
  In b (keys P) -> mem b (complement P H) = negb (mem b H).
Proof.
  intros Hb. unfold complement.
  destruct (mem b H) eqn:E; simpl.
  - apply mem_not_In. intros Hin. apply filter_In in Hin as [_ Hin].
    rewrite E in Hin. discriminate.
  - apply mem_In. apply filter_In. split; [assumption | now rewrite E].
Qed.

(** Every observed bitstring falls in a set or in its complement, never in
    both. *)
Lemma count_partition (P : dict Q) (H : list bitstring) (C : dict nat) :
  (forall b, In b (keys C) -> In b (keys P)) ->
  (count_in H C + count_in (complement P H) C = shots C)%nat.
Proof.
  induction C as [|[k c] C IH]; intros Hsub; [reflexivity|].
  rewrite !count_in_cons.
  rewrite mem_complement by (apply Hsub; now left).
  assert (IH' : (count_in H C + count_in (complement P H) C = shots C)%nat).
  { apply IH. intros b Hb. apply Hsub. now right. }
  unfold shots in *. simpl.
  destruct (mem k H); simpl; lia.
Qed.

(** C5: for an ideal distribution P over the 2^w bitstrings and observed
    counts C of w-bit outcomes with a positive shot total, the heavy-output
    frequency equals 1 minus the frequency of the complementary (non-heavy)
    set. *)
Theorem heavy_frequency_complement (w : nat) (P : dict Q) (C : dict nat) :
  full_enumeration w P ->
  Forall (fun b => length b = w) (keys C) ->
  (0 < shots C)%nat ->
  exists f g,
    heavy_output_frequency P C = Ok f /\
    non_heavy_frequency P C = Ok g /\
    f == 1 - g.
Proof.
  intros HP HC HS.
  destruct (median_defined (values P) (full_enumeration_nonempty w P HP)) as [m Hm].
  unfold heavy_output_frequency, non_heavy_frequency.
  rewrite (heavy_set_of_median P m Hm). simpl.
  rewrite !frequency_over_defined by assumption.
  do 2 eexists. split; [reflexivity|]. split; [reflexivity|].
  set (H := keys (filter (fun kv => Qgt_bool (snd kv) m) P)).
  assert (Hpart : (count_in H C + count_in (complement P H) C = shots C)%nat).
  { apply count_partition. intros b Hb.
    apply (full_enumeration_keys w P b HP).
    rewrite Forall_forall in HC. now apply HC. }
  pose proof (Q_of_nat_pos (shots C) HS) as Hpos.
  rewrite <- Hpart in Hpos |- *.
  unfold Q_of_nat in *. rewrite Nat2Z.inj_add, inject_Z_plus in *.
  field. exact Hpos.
Qed.

(** ** The theorems on a two-qubit trial *)

Lemma demo_P_full : full_enumeration 2 demo_P.
Proof. apply Permutation_refl. Defined.

Lemma demo_uniform_full : full_enumeration 2 demo_uniform.
Proof. apply Permutation_refl. Defined.

Lemma demo_C_shots : (0 < shots demo_C)%nat.
Proof. vm_compute. lia. Defined.

Example demo_heavy_set : heavy_set demo_P = Ok [[true; false]; [true; true]].
Proof. reflexivity. Qed.

Example demo_heavy_frequency : heavy_output_frequency demo_P demo_C = Ok (7 # 10).
Proof. reflexivity. Qed.

Example demo_non_heavy_frequency : non_heavy_frequency demo_P demo_C = Ok (3 # 10).
Proof. reflexivity. Qed.

Lemma uniform_distribution_no_heavy_witness :
  heavy_set demo_uniform = Ok [] /\
  forall C, (0 < shots C)%nat ->
    exists f, heavy_output_frequency demo_uniform C = Ok f /\ f == 0.
Proof.
  apply (uniform_distribution_no_heavy 2 demo_uniform (1 # 4)).
  - exact demo_uniform_full.
  - repeat constructor; reflexivity.
Defined.

Lemma heavy_frequency_complement_witness :
  exists f g,
    heavy_output_frequency demo_P demo_C = Ok f /\
    non_heavy_frequency demo_P demo_C = Ok g /\
    f == 1 - g.
Proof.
  apply (heavy_frequency_complement 2 demo_P demo_C).
  - exact demo_P_full.
  - repeat constructor.
  - exact demo_C_shots.
Defined.


(** * Further properties of the cells *)

(** ** Session 2: the schedule on floats and fractions *)

Section ScheduleEdges.

Context {A : Type} `{Number A}.

Lemma schedule_fold_raise (T delta_t : A) (e : exn) (l : list Z) :
  fold_left (schedule_step T delta_t) l (Raise e) = Raise e.
Proof. induction l as [|i l IH]; [reflexivity | exact IH]. Qed.

(** X1: for T a float or a Fraction other than zero and an int N that
    converts to the type of T, to a number other than zero,
    [construct_schedule(T, N)] returns two lists of the same length, N + 1
    (none for N < 0); so [gammas + betas], the parameter vector handed to
    the variational form of p = N + 1 layers, has 2 * (N + 1) entries. *)
Theorem construct_schedule_lengths (T : A) (N : Z) :
  is_zero T = false ->
  converts N = true ->
  is_zero (of_int N) = false ->
  exists gammas betas,
    construct_schedule T N = Ok (gammas, betas) /\
    len gammas = Z.max 0 (N + 1) /\
    len betas = Z.max 0 (N + 1) /\
    len (gammas ++ betas) = (2 * Z.max 0 (N + 1))%Z.
Proof.
  intros HT HC HN. rewrite (construct_schedule_entries T N HT HC HN).
  do 2 eexists. split; [reflexivity|].
  unfold len. rewrite length_app, !length_map, range_length. lia.
Qed.

(** X2: for T a float or a Fraction, [construct_schedule(T, N)] raises
    ZeroDivisionError when N is 0 (at [T/N]), and when T is zero and N >= 1
    converts to the type of T, to a number other than zero (at
    [2 * delta_t * t/T], in the first pass of the loop). *)
Theorem construct_schedule_zero_division (T : A) (N : Z) :
  N = 0%Z \/
  ((1 <= N)%Z /\ converts N = true /\ is_zero (of_int N) = false /\
   is_zero T = true) ->
  construct_schedule T N = Raise ZeroDivisionError.
Proof.
  intros [-> | (Hpos & HC & HN & HT)].
  - apply construct_schedule_zero_steps; [apply zero_converts | apply zero_is_zero].
  - unfold construct_schedule, int_operand at 1, truediv at 1, bind.
    rewrite HC, HN.
    replace (N + 1)%Z with (Z.of_nat (S (Z.to_nat N))) by lia.
    rewrite range_of_nat. cbn [seq map fold_left].
    unfold schedule_step at 2. unfold bind, int_operand, truediv.
    change (Z.of_nat 0) with 0%Z. rewrite zero_converts, HT.
    apply schedule_fold_raise.
Qed.

(** X3: for T a float or a Fraction and a negative int N that converts to
    the type of T, to a number other than zero, the loop body never runs:
    the call returns two empty lists, whatever the value of T (zero
    included, which never reaches a division by T). *)
Theorem construct_schedule_negative_steps (T : A) (N : Z) :
  (N < 0)%Z ->
  converts N = true ->
  is_zero (of_int N) = false ->
  construct_schedule T N = Ok ([], []).
Proof.
  exact (construct_schedule_no_steps T N).
Qed.

End ScheduleEdges.

Lemma construct_schedule_lengths_witness :
  exists gammas betas,
    construct_schedule (of_int 10 : float) 20 = Ok (gammas, betas) /\
    len gammas = Z.max 0 (20 + 1) /\
    len betas = Z.max 0 (20 + 1) /\
    len (gammas ++ betas) = (2 * Z.max 0 (20 + 1))%Z.
Proof.
  apply (construct_schedule_lengths (of_int 10 : float) 20); reflexivity.
Defined.

Lemma construct_schedule_zero_division_witness :
  construct_schedule (of_int 0 : float) 3 = Raise ZeroDivisionError.
Proof.
  apply (construct_schedule_zero_division (of_int 0 : float) 3).
  right. repeat split. lia.
Defined.

Lemma construct_schedule_negative_steps_witness :
  construct_schedule (of_int 0 : float) (- 2 ^ 63) = Ok ([], []).
Proof.
  apply (construct_schedule_negative_steps (of_int 0 : float) (- 2 ^ 63));
    [lia | reflexivity | reflexivity].
Defined.

(** The conditions on N, on the two types.  For a Fraction every int
    converts, and to zero only from 0.  For a float the ints that convert
    are those of magnitude below 2^1024 - 2^970: the largest of them rounds
    to the largest finite float, the next int to a float that does not
    exist, and the call raises OverflowError at [T/N] (for such a negative N
    too, before the empty loop); -2^63 and 2^63 + 1 convert to the floats
    of value -2^63 and 2^63. *)
Example construct_schedule_int_conversion :
  (forall N, converts (A := Q) N = true) /\
  (forall N, is_zero (of_int N : Q) = true <-> N = 0%Z) /\
  (forall T : Q, construct_schedule T (- (10 ^ 400 + 1)) = Ok ([], [])) /\
  converts (A := float) (float_limit - 1) = true /\
  Prim2SF (of_int (float_limit - 1)) = S754_finite false (2 ^ 53 - 1) 971 /\
  converts (A := float) float_limit = false /\
  binary_normalize prec emax float_limit 0 false = S754_infinity false /\
  (forall T : float, construct_schedule T (- (10 ^ 400 + 1)) = Raise OverflowError) /\
  (forall T : float, construct_schedule T (10 ^ 400) = Raise OverflowError) /\
  Prim2SF (of_int (- 2 ^ 63)) = S754_finite true (2 ^ 52) 11 /\
  Prim2SF (of_int (2 ^ 63 + 1)) = S754_finite false (2 ^ 52) 11 /\
  (forall T : float, construct_schedule T (- 2 ^ 63) = Ok ([], [])).
Proof.
  split; [reflexivity|].
  split.
  { intros N. simpl. rewrite Qeq_bool_iff. unfold Qeq. simpl. lia. }
  split.
  { intros T. apply construct_schedule_no_steps; [lia | reflexivity | reflexivity]. }
  do 4 (split; [vm_compute; reflexivity|]).
  do 2 (split; [intros T; apply construct_schedule_overflow; vm_compute; reflexivity|]).
  do 2 (split; [vm_compute; reflexivity|]).
  intros T. apply construct_schedule_no_steps;
    [lia | vm_compute; reflexivity | vm_compute; reflexivity].
Qed.

(** ** Session 2: the schedule in exact arithmetic *)

Lemma schedule_entries_linear (T : Q) (N i : Z) :
  ~ T == 0 -> ~ inject_Z N == 0 ->
  gamma_at T (quotient T (of_int N)) i
  == (2 * T / (inject_Z N * inject_Z N)) * inject_Z i /\
  beta_at T (quotient T (of_int N)) i
  == (2 * T / (inject_Z N * inject_Z N)) * (inject_Z i - inject_Z N).
Proof.
  intros HT HN. unfold gamma_at, beta_at. simpl. split; field; auto.
Qed.

Lemma index_map_range_Z {B : Type} (f : Z -> B) (n i : Z) :
  (0 <= i < n)%Z -> index (map f (range n)) i = Ok (f i).
Proof.
  intros Hi.
  replace n with (Z.of_nat (Z.to_nat n)) by lia.
  replace i with (Z.of_nat (Z.to_nat i)) at 1 by lia.
  rewrite index_map_range by lia.
  now replace (Z.of_nat (Z.to_nat i)) with i by lia.
Qed.

(** X4: in exact arithmetic, for T > 0 and N >= 1, the schedule ramps: along
    the steps the gammas rise strictly from 0 and the betas rise strictly to
    0, so every gamma is non-negative and every beta non-positive. *)
Theorem schedule_ramps (T : Q) (N : Z) :
  0 < T -> (1 <= N)%Z ->
  exists gammas betas,
    construct_schedule T N = Ok (gammas, betas) /\
    forall i j, (0 <= i < j)%Z -> (j <= N)%Z ->
      exists gi gj bi bj,
        index gammas i = Ok gi /\ index gammas j = Ok gj /\
        index betas i = Ok bi /\ index betas j = Ok bj /\
        0 <= gi /\ gi < gj /\ bi < bj /\ bj <= 0.
Proof.
  intros HT HN.
  assert (HT0 : ~ T == 0) by (intro E; rewrite E in HT; discriminate).
  assert (HN0 : ~ inject_Z N == 0) by (apply inject_Z_nonzero; lia).
  rewrite (construct_schedule_entries T N)
    by (try reflexivity; apply Q_is_zero_false; assumption).
  do 2 eexists. split; [reflexivity|].
  intros i j Hij HjN.
  rewrite !index_map_range_Z by lia.
  do 4 eexists. repeat (split; [reflexivity|]).
  destruct (schedule_entries_linear T N i HT0 HN0) as [Hgi Hbi].
  destruct (schedule_entries_linear T N j HT0 HN0) as [Hgj Hbj].
  rewrite Hgi, Hgj, Hbi, Hbj.
  set (c := 2 * T / (inject_Z N * inject_Z N)).
  assert (Hc : 0 < c).
  { unfold c. apply Qlt_shift_div_l.
    - rewrite <- inject_Z_mult. change 0 with (inject_Z 0).
      rewrite <- Zlt_Qlt. nia.
    - rewrite Qmult_0_l. apply (Qmult_lt_0_compat 2 T); [reflexivity | assumption]. }
  assert (Hi0 : 0 <= inject_Z i) by (change 0 with (inject_Z 0); rewrite <- Zle_Qle; lia).
  assert (Hlt : inject_Z i < inject_Z j) by (rewrite <- Zlt_Qlt; lia).
  assert (HjN' : inject_Z j <= inject_Z N) by (rewrite <- Zle_Qle; lia).
  repeat split; nra.
Qed.

Lemma schedule_ramps_witness :
  exists gammas betas,
    construct_schedule (5 # 1) 10 = Ok (gammas, betas) /\
    forall i j, (0 <= i < j)%Z -> (j <= 10)%Z ->
      exists gi gj bi bj,
        index gammas i = Ok gi /\ index gammas j = Ok gj /\
        index betas i = Ok bi /\ index betas j = Ok bj /\
        0 <= gi /\ gi < gj /\ bi < bj /\ bj <= 0.
Proof.
  apply (schedule_ramps (5 # 1) 10); [reflexivity | lia].
Defined.

(** ** Session 3: the two loops on any number of trials *)

Lemma range_app (a m : nat) :
  range (Z.of_nat (a + m)) = range (Z.of_nat a) ++ map Z.of_nat (seq a m).
Proof. now rewrite !range_of_nat, seq_app, map_app. Qed.

Section LoopFacts.

Variable circuit : Type.
Variable ideal_result : Type.
Variable exp_result : Type.
Variable execute_statevector : list circuit -> ideal_result.
Variable execute_noisy : list circuit -> exp_result.

Lemma ideal_run_covered (circs : list (list circuit)) (n : nat) :
  (n <= length circs)%nat ->
  ideal_run execute_statevector circs (Z.of_nat n)
  = ((map Simulating_trial (filter every_tenth (range (Z.of_nat n))),
      map execute_statevector (firstn n circs)), None).
Proof.
  unfold ideal_run.
  induction n as [|n IH]; intros Hn; [reflexivity|].
  destruct (nth_error circs n) as [row|] eqn:Hrow;
    [|apply nth_error_None in Hrow; lia].
  rewrite (firstn_succ_nth _ _ _ Hrow), map_app.
  rewrite range_succ, fold_left_app, IH by lia.
  rewrite filter_app, map_app.
  cbn [fold_left filter]. unfold ideal_step, every_tenth.
  rewrite (index_nonneg _ _ _ Hrow).
  destruct (Z.of_nat n mod 10 =? 0)%Z; cbn [map]; now rewrite ?app_nil_r.
Qed.

Lemma exp_run_covered (circs : list (list circuit)) (n : nat) :
  (n <= length circs)%nat ->
  exp_run execute_noisy circs (Z.of_nat n)
  = ((map Running_trial (filter every_tenth (range (Z.of_nat n))),
      map execute_noisy (firstn n circs)), None).
Proof.
  unfold exp_run.
  induction n as [|n IH]; intros Hn; [reflexivity|].
  destruct (nth_error circs n) as [row|] eqn:Hrow;
    [|apply nth_error_None in Hrow; lia].
  rewrite (firstn_succ_nth _ _ _ Hrow), map_app.
  rewrite range_succ, fold_left_app, IH by lia.
  rewrite filter_app, map_app.
  cbn [fold_left filter]. unfold exp_step, every_tenth.
  rewrite (index_nonneg _ _ _ Hrow).
  destruct (Z.of_nat n mod 10 =? 0)%Z; cbn [map]; now rewrite ?app_nil_r.
Qed.

Lemma ideal_loop_run (circs : list (list circuit)) (n : nat) :
  (n <= length circs)%nat ->
  ideal_loop execute_statevector circs (Z.of_nat n)
  = Ok (map Simulating_trial (filter every_tenth (range (Z.of_nat n))),
        map execute_statevector (firstn n circs)).
Proof.
  intros Hn. unfold ideal_loop. now rewrite ideal_run_covered.
Qed.

Lemma exp_loop_run (circs : list (list circuit)) (n : nat) :
  (n <= length circs)%nat ->
  exp_loop execute_noisy circs (Z.of_nat n)
  = Ok (map Running_trial (filter every_tenth (range (Z.of_nat n))),
        map execute_noisy (firstn n circs)).
Proof.
  intros Hn. unfold exp_loop. now rewrite exp_run_covered.
Qed.

(** Once an exception is raised the remaining trials change nothing. *)
Lemma ideal_fold_raise (circs : list (list circuit))
  (st : list stdout_line * list ideal_result) (e : exn) (l : list Z) :
  fold_left (ideal_step execute_statevector circs) l (st, Some e) = (st, Some e).
Proof. destruct st as [out res]. induction l as [|i l IH]; [reflexivity | exact IH]. Qed.

Lemma exp_fold_raise (circs : list (list circuit))
  (st : list stdout_line * list exp_result) (e : exn) (l : list Z) :
  fold_left (exp_step execute_noisy circs) l (st, Some e) = (st, Some e).
Proof. destruct st as [out res]. induction l as [|i l IH]; [reflexivity | exact IH]. Qed.

Lemma index_past_end {B : Type} (l : list B) : index l (len l) = Raise IndexError.
Proof.
  unfold index, len.
  destruct (Z.of_nat (length l) <? 0)%Z eqn:E; [apply Z.ltb_lt in E; lia|].
  rewrite E, Nat2Z.id.
  now replace (nth_error l (length l)) with (@None B)
    by (symmetry; apply nth_error_None; lia).
Qed.

(** A cell asked for more trials than the list has rows stops at the first
    missing row: every row is executed, and the progress line of the missing
    trial is printed before the lookup fails. *)
Lemma ideal_run_short (circs : list (list circuit)) (trials : Z) :
  (len circs < trials)%Z ->
  ideal_run execute_statevector circs trials
  = ((map Simulating_trial (filter every_tenth (range (len circs + 1))),
      map execute_statevector circs), Some IndexError).
Proof.
  unfold len. intros Hc.
  replace trials
    with (Z.of_nat (length circs + S (Z.to_nat (trials - Z.of_nat (length circs) - 1))))
    by lia.
  unfold ideal_run. rewrite range_app, fold_left_app.
  fold (ideal_run execute_statevector circs (Z.of_nat (length circs))).
  rewrite ideal_run_covered, firstn_all by lia.
  cbn [seq map fold_left]. unfold ideal_step at 2.
  fold (len circs). rewrite index_past_end, ideal_fold_raise.
  replace (len circs + 1)%Z with (Z.of_nat (S (length circs))) by (unfold len; lia).
  rewrite range_succ, filter_app, map_app. unfold len, every_tenth.
  cbn [filter].
  destruct (Z.of_nat (length circs) mod 10 =? 0)%Z; cbn [map]; now rewrite ?app_nil_r.
Qed.

Lemma exp_run_short (circs : list (list circuit)) (trials : Z) :
  (len circs < trials)%Z ->
  exp_run execute_noisy circs trials
  = ((map Running_trial (filter every_tenth (range (len circs + 1))),
      map execute_noisy circs), Some IndexError).
Proof.
  unfold len. intros Hc.
  replace trials
    with (Z.of_nat (length circs + S (Z.to_nat (trials - Z.of_nat (length circs) - 1))))
    by lia.
  unfold exp_run. rewrite range_app, fold_left_app.
  fold (exp_run execute_noisy circs (Z.of_nat (length circs))).
  rewrite exp_run_covered, firstn_all by lia.
  cbn [seq map fold_left]. unfold exp_step at 2.
  fold (len circs). rewrite index_past_end, exp_fold_raise.
  replace (len circs + 1)%Z with (Z.of_nat (S (length circs))) by (unfold len; lia).
  rewrite range_succ, filter_app, map_app. unfold len, every_tenth.
  cbn [filter].
  destruct (Z.of_nat (length circs) mod 10 =? 0)%Z; cbn [map]; now rewrite ?app_nil_r.
Qed.

(** X5: run for any number of trials that the circuit lists cover, the two
    loops finish; each returns the results of the first [trials] rows, in
    the order of the rows, and prints one progress line for every trial
    number divisible by ten, in increasing order.  For zero or negative
    [trials] they return empty lists and print nothing. *)
Theorem loops_results_and_progress
  (nomeas circs : list (list circuit)) (trials : Z) :
  (trials <= len nomeas)%Z ->
  (trials <= len circs)%Z ->
  ideal_loop execute_statevector nomeas trials
  = Ok (map Simulating_trial (filter every_tenth (range trials)),
        map execute_statevector (firstn (Z.to_nat trials) nomeas)) /\
  exp_loop execute_noisy circs trials
  = Ok (map Running_trial (filter every_tenth (range trials)),
        map execute_noisy (firstn (Z.to_nat trials) circs)).
Proof.
  unfold len. intros Hn Hc.
  destruct (Z.le_gt_cases trials 0) as [Hneg | Hpos].
  - unfold ideal_loop, exp_loop, ideal_run, exp_run, range, range2.
    replace (Z.to_nat (trials - 0)) with 0%nat by lia.
    replace (Z.to_nat trials) with 0%nat by lia.
    split; reflexivity.
  - replace trials with (Z.of_nat (Z.to_nat trials)) at 1 2 4 5 by lia.
    split; [apply ideal_loop_run | apply exp_loop_run]; lia.
Qed.

(** X6: asked for more trials than a circuit list has rows, a loop ends in
    IndexError at the first missing row, the trial whose number is the
    length of the list.  What the cell leaves behind is kept: the global
    list holds the results of all the rows there are, in order, and the
    progress lines printed are those of the trial numbers divisible by ten
    up to and including the missing trial, whose line is printed before the
    lookup fails. *)
Theorem loops_raise_on_missing_rows
  (nomeas circs : list (list circuit)) (trials : Z) :
  (len nomeas < trials)%Z ->
  (len circs < trials)%Z ->
  ideal_run execute_statevector nomeas trials
  = ((map Simulating_trial (filter every_tenth (range (len nomeas + 1))),
      map execute_statevector nomeas), Some IndexError) /\
  ideal_loop execute_statevector nomeas trials = Raise IndexError /\
  exp_run execute_noisy circs trials
  = ((map Running_trial (filter every_tenth (range (len circs + 1))),
      map execute_noisy circs), Some IndexError) /\
  exp_loop execute_noisy circs trials = Raise IndexError.
Proof.
  intros Hn Hc. unfold ideal_loop, exp_loop.
  rewrite (ideal_run_short nomeas trials Hn), (exp_run_short circs trials Hc).
  repeat split.
Qed.

End LoopFacts.

Lemma loops_results_and_progress_witness :
  ideal_loop demo_execute (qv_circs_nomeas demo_circuits) 25
  = Ok (map Simulating_trial (filter every_tenth (range 25)),
        map demo_execute (firstn (Z.to_nat 25) (qv_circs_nomeas demo_circuits))) /\
  exp_loop demo_execute (qv_circs demo_circuits) 25
  = Ok (map Running_trial (filter every_tenth (range 25)),
        map demo_execute (firstn (Z.to_nat 25) (qv_circs demo_circuits))).
Proof.
  apply (loops_results_and_progress _ _ _ demo_execute demo_execute
           (qv_circs_nomeas demo_circuits) (qv_circs demo_circuits) 25);
    vm_compute; discriminate.
Defined.

Lemma loops_raise_on_missing_rows_witness :
  ideal_run demo_execute (qv_circs_nomeas demo_circuits) 105
  = ((map Simulating_trial
        (filter every_tenth (range (len (qv_circs_nomeas demo_circuits) + 1))),
      map demo_execute (qv_circs_nomeas demo_circuits)), Some IndexError) /\
  ideal_loop demo_execute (qv_circs_nomeas demo_circuits) 105 = Raise IndexError /\
  exp_run demo_execute (qv_circs demo_circuits) 105
  = ((map Running_trial
        (filter every_tenth (range (len (qv_circs demo_circuits) + 1))),
      map demo_execute (qv_circs demo_circuits)), Some IndexError) /\
  exp_loop demo_execute (qv_circs demo_circuits) 105 = Raise IndexError.
Proof.
  apply (loops_raise_on_missing_rows _ _ _ demo_execute demo_execute
           (qv_circs_nomeas demo_circuits) (qv_circs demo_circuits) 105);
    vm_compute; reflexivity.
Defined.

(** ** Session 3: the report of the last cell *)

Lemma index_missing {B : Type} (l : list B) (k : nat) :
  nth_error l k = None -> index l (Z.of_nat k) = Raise IndexError.
Proof.
  intros Hk. unfold index.
  destruct (Z.of_nat k <? 0)%Z eqn:E; [apply Z.ltb_lt in E; lia|].
  now rewrite E, Nat2Z.id, Hk.
Qed.

Lemma skipn_nth_error {B : Type} (l : list B) (k : nat) (x : B) :
  nth_error l k = Some x -> skipn k l = x :: skipn (S k) l.
Proof.
  revert k; induction l as [|y l IH]; intros [|k] Hk; simpl in *; try discriminate.
  - now inversion Hk.
  - now apply IH.
Qed.

Section ReportFacts.

Variable number : Type.
Variable np_round : number -> Z -> number.

Lemma report_fold_raise (qv_success_list : list (bool * number))
  (qv_list : list (list number)) (e : exn) (l : list (Z * list Z)) :
  fold_left (report_step np_round qv_success_list qv_list) l (Raise e) = Raise e.
Proof. induction l as [|i l IH]; [reflexivity | exact IH]. Qed.

Lemma report_fold_run (qv_success_list : list (bool * number))
  (ydata0 : list number) (rest : list (list number)) (qubit_lists : list (list Z)) :
  forall (k : nat) (out : list (report_line number)),
    (k + length qubit_lists <= length qv_success_list)%nat ->
    (k + length qubit_lists <= length ydata0)%nat ->
    fold_left (report_step np_round qv_success_list (ydata0 :: rest))
              (combine (map Z.of_nat (seq k (length qubit_lists))) qubit_lists)
              (Ok out)
    = Ok (out ++ flat_map (report_lines np_round)
                   (combine qubit_lists
                      (combine (skipn k ydata0) (skipn k qv_success_list)))).
Proof.
  induction qubit_lists as [|qubits ql IH]; intros k out Hs Hy.
  - simpl. now rewrite app_nil_r.
  - simpl in Hs, Hy.
    destruct (nth_error ydata0 k) as [hog|] eqn:Hhog;
      [|apply nth_error_None in Hhog; lia].
    destruct (nth_error qv_success_list k) as [entry|] eqn:Hentry;
      [|apply nth_error_None in Hentry; lia].
    rewrite (skipn_nth_error _ _ _ Hhog), (skipn_nth_error _ _ _ Hentry).
    cbn [length seq map combine fold_left flat_map].
    unfold report_step at 2. unfold bind.
    change (index (ydata0 :: rest) 0) with (Ok ydata0). cbv beta iota.
    rewrite (index_nonneg _ _ _ Hhog), (index_nonneg _ _ _ Hentry).
    destruct (fst entry) eqn:Hflag.
    + rewrite IH by lia. unfold report_lines at 2. rewrite Hflag.
      now rewrite <- !app_assoc.
    + rewrite IH by lia. unfold report_lines at 2. rewrite Hflag.
      now rewrite <- !app_assoc.
Qed.

(** X7: when the fitter returns a success entry and a mean for every width,
    the last cell prints two lines per width, in the order of the widths:
    the report with the width and the two rounded numbers, then the verdict,
    which is "passed for QV 2^width" exactly when the entry's success flag is
    set and "failed" otherwise (the confidence itself is not consulted). *)
Theorem report_loop_lines (qubit_lists : list (list Z))
  (qv_success_list : list (bool * number))
  (ydata0 : list number) (rest : list (list number)) :
  (length qubit_lists <= length qv_success_list)%nat ->
  (length qubit_lists <= length ydata0)%nat ->
  report_loop np_round qubit_lists qv_success_list (ydata0 :: rest)
  = Ok (flat_map (report_lines np_round)
          (combine qubit_lists (combine ydata0 qv_success_list))).
Proof.
  intros Hs Hy. unfold report_loop, enumerate, len.
  rewrite range_of_nat.
  now rewrite (report_fold_run qv_success_list ydata0 rest qubit_lists 0 []).
Qed.

Lemma report_fold_short (qv_success_list : list (bool * number))
  (qv_list : list (list number)) (qubit_lists : list (list Z)) :
  forall (k : nat) (out : list (report_line number)),
    (k <= length qv_success_list)%nat ->
    (k <= length (hd [] qv_list))%nat ->
    (length qv_success_list < k + length qubit_lists)%nat \/
    (length (hd [] qv_list) < k + length qubit_lists)%nat ->
    fold_left (report_step np_round qv_success_list qv_list)
              (combine (map Z.of_nat (seq k (length qubit_lists))) qubit_lists)
              (Ok out)
    = Raise IndexError.
Proof.
  induction qubit_lists as [|qubits ql IH]; intros k out Hks Hky Hshort.
  - simpl in Hshort. lia.
  - cbn [length seq map combine fold_left].
    unfold report_step at 2. unfold bind.
    destruct qv_list as [|ydata0 rest].
    { cbn. apply report_fold_raise. }
    change (index (ydata0 :: rest) 0) with (Ok ydata0). cbv beta iota.
    cbn [hd] in Hky, Hshort.
    destruct (nth_error ydata0 k) as [hog|] eqn:Hhog.
    + rewrite (index_nonneg _ _ _ Hhog).
      destruct (nth_error qv_success_list k) as [entry|] eqn:Hentry.
      * rewrite (index_nonneg _ _ _ Hentry).
        assert (Hk1 : (k < length ydata0)%nat) by (apply nth_error_Some; congruence).
        assert (Hk2 : (k < length qv_success_list)%nat) by (apply nth_error_Some; congruence).
        destruct (fst entry); apply IH; cbn [hd length] in *; lia.
      * rewrite (index_missing _ _ Hentry). apply report_fold_raise.
    + rewrite (index_missing _ _ Hhog). apply report_fold_raise.
Qed.

(** X8: when the fitter's success list, or the first row of its data, has
    fewer entries than there are widths (or the data has no row at all), the
    last cell raises IndexError. *)
Theorem report_loop_raises (qubit_lists : list (list Z))
  (qv_success_list : list (bool * number)) (qv_list : list (list number)) :
  (length qv_success_list < length qubit_lists)%nat \/
  (length (hd [] qv_list) < length qubit_lists)%nat ->
  report_loop np_round qubit_lists qv_success_list qv_list = Raise IndexError.
Proof.
  intros Hshort. unfold report_loop, enumerate, len.
  rewrite range_of_nat.
  apply (report_fold_short qv_success_list qv_list qubit_lists 0 []); simpl; lia.
Qed.

End ReportFacts.

Lemma report_loop_lines_witness :
  report_loop (fun (x : Q) (_ : Z) => x) qubit_list
    [(true, 99 # 100); (true, 98 # 100); (false, 60 # 100); (false, 0)]
    [[8 # 10; 75 # 100; 7 # 10; 6 # 10]; [1 # 100; 1 # 100; 1 # 100; 1 # 100]]
  = Ok (flat_map (report_lines (fun (x : Q) (_ : Z) => x))
          (combine qubit_list
             (combine [8 # 10; 75 # 100; 7 # 10; 6 # 10]
                [(true, 99 # 100); (true, 98 # 100); (false, 60 # 100); (false, 0)]))).
Proof.
  apply (report_loop_lines Q (fun x _ => x) qubit_list); vm_compute; lia.
Defined.

Lemma report_loop_raises_witness :
  report_loop (fun (x : Q) (_ : Z) => x) qubit_list
    [(true, 99 # 100); (true, 98 # 100)]
    [[8 # 10; 75 # 100; 7 # 10; 6 # 10]]
  = Raise IndexError.
Proof.
  apply (report_loop_raises Q (fun x _ => x) qubit_list).
  left. vm_compute. lia.
Defined.

(** ** Session 2: the basis states of lowest energy *)

Lemma Qlt_bool_iff (x y : Q) : Qlt_bool x y = true <-> x < y.
Proof.
  unfold Qlt_bool. rewrite negb_true_iff. split.
  - intros E. apply Qnot_le_lt. intros Hle. apply Qle_bool_iff in Hle. congruence.
  - intros Hlt. destruct (Qle_bool y x) eqn:E; [|reflexivity].
    apply Qle_bool_iff in E. exfalso. now apply (Qlt_not_le _ _ Hlt).
Qed.

Lemma min_fold_spec (l : list Q) :
  forall best,
    let m := fold_left (fun best v => if Qlt_bool v best then v else best) l best in
    (m = best \/ In m l) /\ m <= best /\ (forall v, In v l -> m <= v).
Proof.
  induction l as [|x l IH]; intros best; cbn [fold_left].
  - split; [now left|]. split; [apply Qle_refl | intros v []].
  - destruct (Qlt_bool x best) eqn:E.
    + apply Qlt_bool_iff in E.
      destruct (IH x) as (Hin & Hle & Hall).
      split; [right; destruct Hin as [-> | Hin]; [now left | now right]|].
      split; [apply Qle_trans with x; [assumption | now apply Qlt_le_weak]|].
      intros v [<- | Hv]; [assumption | now apply Hall].
    + assert (Hbx : best <= x).
      { apply Qnot_lt_le. intros Hlt. apply Qlt_bool_iff in Hlt. congruence. }
      destruct (IH best) as (Hin & Hle & Hall).
      split; [destruct Hin as [-> | Hin]; [now left | right; now right]|].
      split; [assumption|].
      intros v [<- | Hv]; [now apply Qle_trans with best | now apply Hall].
Qed.

Lemma enumerate_from_In {B : Type} (d : list B) :
  forall (k : nat) (i : Z) (v : B),
    In (i, v) (combine (map Z.of_nat (seq k (length d))) d) <->
    exists j, i = Z.of_nat (k + j) /\ nth_error d j = Some v.
Proof.
  induction d as [|x d IH]; intros k i v; cbn [length seq map combine].
  - split; [intros [] | intros ([|j] & _ & Hj); discriminate].
  - split.
    + intros [[= <- <-] | Hin].
      * exists 0%nat. split; [f_equal; lia | reflexivity].
      * apply IH in Hin as (j & -> & Hj). exists (S j). split; [f_equal; lia | exact Hj].
    + intros ([|j] & -> & Hj).
      * left. simpl in Hj. inversion Hj. f_equal. f_equal. lia.
      * right. apply IH. exists j. split; [f_equal; lia | exact Hj].
Qed.

Lemma where_from_sorted (p : Z * Q -> bool) (d : list Q) :
  forall k : nat,
    let idx := map fst (filter p (combine (map Z.of_nat (seq k (length d))) d)) in
    StronglySorted Z.lt idx /\ Forall (fun i => (Z.of_nat k <= i)%Z) idx.
Proof.
  induction d as [|x d IH]; intros k; cbn [length seq map combine filter].
  - split; constructor.
  - destruct (IH (S k)) as [Hs Hb].
    assert (Hb' : Forall (fun i => (Z.of_nat k < i)%Z)
                    (map fst (filter p (combine (map Z.of_nat (seq (S k) (length d))) d)))).
    { eapply Forall_impl; [|exact Hb]. intros i Hi. simpl in Hi. lia. }
    destruct (p (Z.of_nat k, x)); cbn [map].
    + split; [constructor; assumption|].
      constructor; [simpl; lia|]. eapply Forall_impl; [|exact Hb']. intros i Hi. simpl in Hi. lia.
    + split; [assumption|].
      eapply Forall_impl; [|exact Hb']. intros i Hi. simpl in Hi. lia.
Qed.

(** X9: for a non-empty diagonal [d], [min(d)] is an entry of [d] below or
    equal to every entry, and [opt_indices] lists, in strictly increasing
    order, exactly the positions of [d] whose entry equals that minimum;
    there is at least one. *)
Theorem opt_indices_argmin (d : list Q) :
  d <> [] ->
  exists m idx,
    py_min d = Some m /\
    opt_indices d = Some idx /\
    In m d /\
    (forall v, In v d -> m <= v) /\
    idx <> [] /\
    (forall i, In i idx <->
               (0 <= i < len d)%Z /\ exists v, index d i = Ok v /\ v == m) /\
    StronglySorted Z.lt idx.
Proof.
  intros Hd. destruct d as [|x l]; [congruence|].
  pose proof (min_fold_spec l x) as Hspec. cbv zeta in Hspec.
  set (m := fold_left (fun best v => if Qlt_bool v best then v else best) l x) in *.
  destruct Hspec as (Hin & Hle & Hall).
  assert (Hm : py_min (x :: l) = Some m) by reflexivity.
  assert (Hmin : In m (x :: l)) by (destruct Hin as [-> | Hin]; [now left | now right]).
  assert (Hmem : forall i, In i (where_eq (x :: l) m) <->
            (0 <= i < len (x :: l))%Z /\ exists v, index (x :: l) i = Ok v /\ v == m).
  { intros i. unfold where_eq, enumerate, len. rewrite range_of_nat, in_map_iff. split.
    - intros ([i' v] & E & Hf). simpl in E; subst i'.
      apply filter_In in Hf as [Hiv Hv]. simpl in Hv. apply Qeq_bool_iff in Hv.
      apply enumerate_from_In in Hiv as (j & -> & Hj).
      assert (j < length (x :: l))%nat by (apply nth_error_Some; congruence).
      split; [lia|]. exists v. split; [now apply index_nonneg | assumption].
    - intros (Hi & v & Hidx & Hv).
      exists (i, v). split; [reflexivity|]. apply filter_In. split.
      + apply enumerate_from_In. exists (Z.to_nat i). split; [lia|].
        unfold index in Hidx.
        destruct (i <? 0)%Z eqn:E; [apply Z.ltb_lt in E; lia|]. rewrite E in Hidx.
        destruct (nth_error (x :: l) (Z.to_nat i)); [now inversion Hidx | discriminate].
      + simpl. now apply Qeq_bool_iff. }
  exists m, (where_eq (x :: l) m).
  split; [exact Hm|]. split; [unfold opt_indices; now rewrite Hm|].
  split; [exact Hmin|].
  split; [intros v [<- | Hv]; [assumption | now apply Hall]|].
  split; [|split; [exact Hmem|]].
  - apply In_nth_error in Hmin as [j Hj].
    assert (Hjm : In (Z.of_nat j) (where_eq (x :: l) m)).
    { apply Hmem.
      assert (j < length (x :: l))%nat by (apply nth_error_Some; congruence).
      split; [unfold len; lia|]. exists m. split; [now apply index_nonneg | reflexivity]. }
    intros E. rewrite E in Hjm. destruct Hjm.
  - unfold where_eq, enumerate, len. rewrite range_of_nat.
    apply (where_from_sorted _ (x :: l) 0).
Qed.

(** [min] of an empty diagonal raises, and [opt_indices] with it. *)
Lemma opt_indices_empty : py_min [] = None /\ opt_indices [] = None.
Proof. split; reflexivity. Qed.

Lemma opt_indices_argmin_witness :
  exists m idx,
    py_min demo_diagonal = Some m /\
    opt_indices demo_diagonal = Some idx /\
    In m demo_diagonal /\
    (forall v, In v demo_diagonal -> m <= v) /\
    idx <> [] /\
    (forall i, In i idx <->
               (0 <= i < len demo_diagonal)%Z /\
               exists v, index demo_diagonal i = Ok v /\ v == m) /\
    StronglySorted Z.lt idx.
Proof.
  apply (opt_indices_argmin demo_diagonal). discriminate.
Defined.

Lemma take_from {B : Type} (m : Q) (probabilities : list B) (d : list Q) :
  forall k : nat,
    (k + length d <= length probabilities)%nat ->
    take probabilities
         (map fst (filter (fun iv => Qeq_bool (snd iv) m)
                          (combine (map Z.of_nat (seq k (length d))) d)))
    = Ok (map fst (filter (fun pv => Qeq_bool (snd pv) m)
                          (combine (skipn k probabilities) d))).
Proof.
  induction d as [|x d IH]; intros k Hk.
  - cbn. now rewrite combine_nil.
  - destruct (nth_error probabilities k) as [pk|] eqn:Hpk;
      [|apply nth_error_None in Hpk; simpl in Hk; lia].
    rewrite (skipn_nth_error _ _ _ Hpk).
    cbn [length seq map combine filter snd].
    specialize (IH (S k) ltac:(simpl in Hk; lia)).
    destruct (Qeq_bool x m); [|exact IH].
    cbn [map fst]. unfold take in *. cbn [traverse].
    rewrite (index_nonneg _ _ _ Hpk). unfold bind at 1.
    now rewrite IH.
Qed.

(** X10: when the array of probabilities has an entry for every basis state,
    [probabilities[opt_indices]] raises nothing and holds, in order, exactly
    the probabilities of the basis states whose energy equals the minimum. *)
Theorem optimal_probabilities_selected {B : Type}
  (probabilities : list B) (d : list Q) (m : Q) :
  py_min d = Some m ->
  (length d <= length probabilities)%nat ->
  exists idx,
    opt_indices d = Some idx /\
    take probabilities idx
    = Ok (map fst (filter (fun pv => Qeq_bool (snd pv) m) (combine probabilities d))).
Proof.
  intros Hm Hlen. exists (where_eq d m).
  split; [unfold opt_indices; now rewrite Hm|].
  unfold where_eq, enumerate, len. rewrite range_of_nat.
  now rewrite (take_from m probabilities d 0).
Qed.

Lemma optimal_probabilities_selected_witness :
  exists idx,
    opt_indices demo_diagonal = Some idx /\
    take demo_probabilities idx
    = Ok (map fst (filter (fun pv => Qeq_bool (snd pv) (-1 # 1))
                          (combine demo_probabilities demo_diagonal))).
Proof.
  apply (optimal_probabilities_selected demo_probabilities demo_diagonal (-1 # 1));
    [reflexivity | simpl; lia].
Defined.

(** ** Session 2: the node colours of [plot_result] *)

Lemma colours_from (x : list Q) (m : nat) :
  forall k : nat,
    (k + m <= length x)%nat ->
    traverse (fun i => xi <- index x i ;; Ok (if Qeq_bool xi 0 then colour_r else colour_b))
             (map Z.of_nat (seq k m))
    = Ok (map colour_of (firstn m (skipn k x))).
Proof.
  induction m as [|m IH]; intros k Hk; [reflexivity|].
  destruct (nth_error x k) as [xk|] eqn:Hxk;
    [|apply nth_error_None in Hxk; lia].
  rewrite (skipn_nth_error _ _ _ Hxk).
  cbn [seq map traverse firstn].
  rewrite (index_nonneg _ _ _ Hxk). unfold bind at 1 2.
  rewrite IH by lia. reflexivity.
Qed.

Lemma colours_short (x : list Q) (m : nat) :
  forall k : nat,
    (k <= length x)%nat -> (length x < k + m)%nat ->
    traverse (fun i => xi <- index x i ;; Ok (if Qeq_bool xi 0 then colour_r else colour_b))
             (map Z.of_nat (seq k m))
    = Raise IndexError.
Proof.
  induction m as [|m IH]; intros k Hk Hshort; [lia|].
  cbn [seq map traverse].
  destruct (nth_error x k) as [xk|] eqn:Hxk.
  - assert (k < length x)%nat by (apply nth_error_Some; congruence).
    rewrite (index_nonneg _ _ _ Hxk). unfold bind at 1 2.
    rewrite IH by lia. reflexivity.
  - now rewrite (index_missing _ _ Hxk).
Qed.

(** X11: [plot_result] colours node i red when [x[i] == 0] and blue
    otherwise, for the first n entries of [x] only, n being the notebook's
    global: a longer [x] is silently cut to n nodes. *)
Theorem plot_result_colors_first_n (n : Z) (x : list Q) :
  (n <= len x)%Z ->
  plot_result_colors n x = Ok (map colour_of (firstn (Z.to_nat n) x)).
Proof.
  unfold len. intros Hn. unfold plot_result_colors.
  destruct (Z.le_gt_cases n 0) as [Hneg | Hpos].
  - unfold range, range2. replace (Z.to_nat (n - 0)) with 0%nat by lia.
    now replace (Z.to_nat n) with 0%nat by lia.
  - replace n with (Z.of_nat (Z.to_nat n)) at 1 by lia.
    rewrite range_of_nat. apply (colours_from x (Z.to_nat n) 0). lia.
Qed.

(** X12: given an [x] with fewer than n entries, [plot_result] raises
    IndexError before anything is drawn. *)
Theorem plot_result_colors_short (n : Z) (x : list Q) :
  (len x < n)%Z ->
  plot_result_colors n x = Raise IndexError.
Proof.
  unfold len. intros Hn. unfold plot_result_colors.
  replace n with (Z.of_nat (Z.to_nat n)) by lia.
  rewrite range_of_nat. apply (colours_short x (Z.to_nat n) 0); lia.
Qed.

Lemma plot_result_colors_first_n_witness :
  plot_result_colors 5 [0; 1; 1; 0; 1; 0; 0]
  = Ok (map colour_of (firstn (Z.to_nat 5) [0; 1; 1; 0; 1; 0; 0])).
Proof.
  apply (plot_result_colors_first_n 5 [0; 1; 1; 0; 1; 0; 0]). vm_compute. discriminate.
Defined.

Lemma plot_result_colors_short_witness :
  plot_result_colors 5 [0; 1; 1] = Raise IndexError.
Proof.
  apply (plot_result_colors_short 5 [0; 1; 1]). reflexivity.
Defined.

(** ** Session 2: Trotterized annealing on one qubit *)

Lemma replace_nth_length {B : Type} (l : list B) (k : nat) (v : B) :
  length (replace_nth l k v) = length l.
Proof.
  revert k; induction l as [|x l IH]; intros [|k]; simpl; auto.
Qed.

Lemma replace_nth_firstn {B : Type} (l : list B) (k : nat) (v : B) :
  (k < length l)%nat -> firstn (S k) (replace_nth l k v) = firstn k l ++ [v].
Proof.
  revert k; induction l as [|x l IH]; intros [|k] Hk; simpl in *; try lia.
  - reflexivity.
  - f_equal. apply IH. lia.
Qed.

Lemma replace_nth_skipn {B : Type} (l : list B) (k j : nat) (v : B) :
  (k < j)%nat -> skipn j (replace_nth l k v) = skipn j l.
Proof.
  revert k j; induction l as [|x l IH]; intros [|k] [|j] Hkj; simpl; try lia; auto.
  apply IH. lia.
Qed.

Lemma setitem_inside {B : Type} (l : list B) (k : nat) (v : B) :
  (k < length l)%nat -> setitem l (Z.of_nat k) v = Ok (replace_nth l k v).
Proof.
  intros Hk. unfold setitem, len.
  destruct (Z.of_nat k <? 0)%Z eqn:E; [apply Z.ltb_lt in E; lia|].
  rewrite E. simpl.
  destruct (Z.of_nat (length l) <=? Z.of_nat k)%Z eqn:E2; [apply Z.leb_le in E2; lia|].
  now rewrite Nat2Z.id.
Qed.

Lemma setitem_outside {B : Type} (l : list B) (k : nat) (v : B) :
  (length l <= k)%nat -> setitem l (Z.of_nat k) v = Raise IndexError.
Proof.
  intros Hk. unfold setitem, len.
  destruct (Z.of_nat k <? 0)%Z eqn:E; [apply Z.ltb_lt in E; lia|].
  rewrite E. simpl.
  destruct (Z.of_nat (length l) <=? Z.of_nat k)%Z eqn:E2; [reflexivity|].
  apply Z.leb_gt in E2. lia.
Qed.


Section TrotterFacts.

Variable A : Type.
Variable P : Type.
Variable simulate : list (instruction A) -> P * P.

Lemma trotter_fold_raise (e : exn) (l : list (Z * (A * A))) :
  fold_left (trotter_step simulate) l (Raise e) = Raise e.
Proof. induction l as [|i l IH]; [reflexivity | exact IH]. Qed.

Lemma trotter_fold_run (zs : list (A * A)) :
  forall (k : nat) (qc : list (instruction A)) (probabilities : list (P * P)),
    (k + length zs <= length probabilities)%nat ->
    fold_left (trotter_step simulate)
              (combine (map Z.of_nat (seq k (length zs))) zs)
              (Ok (qc, probabilities))
    = Ok (qc ++ flat_map layer zs,
          firstn k probabilities
          ++ map (column simulate qc zs) (seq 0 (length zs))
          ++ skipn (k + length zs) probabilities).
Proof.
  induction zs as [|z zs IH]; intros k qc probabilities Hk.
  - cbn. rewrite app_nil_r, Nat.add_0_r. now rewrite firstn_skipn.
  - cbn [length] in Hk.
    cbn [length seq map combine fold_left].
    unfold trotter_step at 2. unfold bind.
    rewrite setitem_inside by lia.
    rewrite IH by (rewrite replace_nth_length; lia).
    rewrite replace_nth_firstn by lia.
    rewrite replace_nth_skipn by lia.
    cbn [flat_map]. rewrite <- !app_assoc.
    assert (E0 : simulate (qc ++ layer z) = column simulate qc (z :: zs) 0).
    { unfold column. cbn [firstn flat_map]. now rewrite app_nil_r. }
    assert (E1 : map (column simulate (qc ++ layer z) zs) (seq 0 (length zs))
                 = map (column simulate qc (z :: zs)) (seq 1 (length zs))).
    { rewrite <- seq_shift, map_map. apply map_ext. intros j.
      unfold column. cbn [firstn flat_map]. now rewrite <- app_assoc. }
    rewrite E0, E1.
    now replace (S k + length zs)%nat with (k + S (length zs))%nat by lia.
Qed.

Lemma trotter_fold_short (zs : list (A * A)) :
  forall (k : nat) (qc : list (instruction A)) (probabilities : list (P * P)),
    (k <= length probabilities)%nat ->
    (length probabilities < k + length zs)%nat ->
    fold_left (trotter_step simulate)
              (combine (map Z.of_nat (seq k (length zs))) zs)
              (Ok (qc, probabilities))
    = Raise IndexError.
Proof.
  induction zs as [|z zs IH]; intros k qc probabilities Hk Hshort.
  - simpl in Hshort. lia.
  - cbn [length] in Hshort.
    cbn [length seq map combine fold_left].
    unfold trotter_step at 2. unfold bind.
    destruct (Nat.eq_dec k (length probabilities)) as [-> | Hne].
    + rewrite setitem_outside by lia. apply trotter_fold_raise.
    + rewrite setitem_inside by lia.
      apply IH; rewrite replace_nth_length; lia.
Qed.

(** X13: when the array has a column for every step, the loop raises
    nothing; the circuit ends as the Hadamard and a barrier followed by one
    (rz, rx, barrier) layer per step, and column j of the array holds the
    simulation of the circuit as it stood after j + 1 layers.  Columns
    beyond the last step keep what they held. *)
Theorem trotter_loop_columns (probabilities : list (P * P)) (gammas betas : list A) :
  (length (zip gammas betas) <= length probabilities)%nat ->
  trotter_loop simulate probabilities gammas betas
  = Ok (initial_circuit ++ flat_map layer (zip gammas betas),
        map (column simulate initial_circuit (zip gammas betas))
            (seq 0 (length (zip gammas betas)))
        ++ skipn (length (zip gammas betas)) probabilities).
Proof.
  intros Hlen. unfold trotter_loop, enumerate, len.
  rewrite range_of_nat.
  now rewrite (trotter_fold_run (zip gammas betas) 0 initial_circuit probabilities).
Qed.

(** X14: with more steps than the array has columns, the loop raises
    IndexError when it reaches the first step without a column. *)
Theorem trotter_loop_raises (probabilities : list (P * P)) (gammas betas : list A) :
  (length probabilities < length (zip gammas betas))%nat ->
  trotter_loop simulate probabilities gammas betas = Raise IndexError.
Proof.
  intros Hlen. unfold trotter_loop, enumerate, len.
  rewrite range_of_nat.
  apply (trotter_fold_short (zip gammas betas) 0); simpl; lia.
Qed.

End TrotterFacts.


Lemma trotter_loop_columns_witness :
  trotter_loop demo_simulate [(0, 0); (0, 0); (7, 7)]%nat demo_probabilities [0; 1]
  = Ok (initial_circuit ++ flat_map layer (zip demo_probabilities [0; 1]),
        map (column demo_simulate initial_circuit (zip demo_probabilities [0; 1]))
            (seq 0 (length (zip demo_probabilities [0; 1])))
        ++ skipn (length (zip demo_probabilities [0; 1])) [(0, 0); (0, 0); (7, 7)]%nat).
Proof.
  apply (trotter_loop_columns Q nat demo_simulate
           [(0, 0); (0, 0); (7, 7)]%nat demo_probabilities [0; 1]).
  simpl. lia.
Defined.

Lemma trotter_loop_raises_witness :
  trotter_loop demo_simulate [(0, 0)]%nat demo_probabilities demo_diagonal
  = Raise IndexError.
Proof.
  apply (trotter_loop_raises Q nat demo_simulate [(0, 0)]%nat
           demo_probabilities demo_diagonal).
  simpl. lia.
Defined.


(** ** Session 2: the MaxCut objective *)

Lemma index_value_at (x : list Q) (i : Z) :
  (0 <= i < len x)%Z -> index x i = Ok (value_at x i).
Proof.
  unfold len. intros Hi. unfold value_at.
  replace i with (Z.of_nat (Z.to_nat i)) at 1 by lia.
  apply index_nonneg. apply nth_error_nth'. lia.
Qed.

Lemma fold_Qplus_compat (l1 l2 : list Q) :
  Forall2 Qeq l1 l2 ->
  forall a b, a == b -> fold_left Qplus l1 a == fold_left Qplus l2 b.
Proof.
  induction 1 as [|x y l1 l2 Hxy _ IH]; intros a b Hab; [exact Hab|].
  cbn [fold_left]. apply IH. now rewrite Hab, Hxy.
Qed.

(** With its ends in range, an edge contributes its term and nothing
    raises. *)
Lemma objective_terms (es : list (Z * Z * Q)) (x : list Q) :
  edges_within es x ->
  objective es x
  = Ok (fold_left Qplus
          (map (fun e : Z * Z * Q =>
                  let '(i, j, w) := e in
                  w * (value_at x i + value_at x j - 2 * value_at x i * value_at x j))
               es) 0).
Proof.
  intros Hin. unfold objective.
  assert (E : traverse (fun e : Z * Z * Q =>
                let '(i, j, w) := e in
                xi <- index x i ;; xj <- index x j ;;
                Ok (w * (xi + xj - 2 * xi * xj))) es
              = Ok (map (fun e : Z * Z * Q =>
                  let '(i, j, w) := e in
                  w * (value_at x i + value_at x j - 2 * value_at x i * value_at x j))
               es)).
  { induction Hin as [|[[i j] w] es [Hi Hj] _ IH]; [reflexivity|].
    cbn [traverse map]. simpl in Hi, Hj.
    rewrite (index_value_at x i Hi), (index_value_at x j Hj).
    unfold bind at 1 2 3. now rewrite IH. }
  now rewrite E.
Qed.

Lemma binary_value_at (x : list Q) (i : Z) :
  binary x -> (0 <= i < len x)%Z -> value_at x i == 0 \/ value_at x i == 1.
Proof.
  unfold binary, len, value_at. intros Hb Hi.
  rewrite Forall_forall in Hb. apply Hb. apply nth_In. lia.
Qed.

(** X16: at a 0/1 assignment over the nodes of the graph, the objective
    raises nothing and its value is the weight of the cut: each edge
    contributes its weight when its two ends differ and nothing when they
    agree. *)
Theorem objective_is_cut_weight (es : list (Z * Z * Q)) (x : list Q) :
  binary x ->
  edges_within es x ->
  exists value, objective es x = Ok value /\ value == cut_weight es x.
Proof.
  intros Hb Hin. rewrite (objective_terms es x Hin).
  eexists. split; [reflexivity|].
  unfold cut_weight. apply fold_Qplus_compat; [|reflexivity].
  induction Hin as [|[[i j] w] es [Hi Hj] _ IH]; [constructor|].
  cbn [map]. constructor; [|exact IH]. simpl in Hi, Hj.
  destruct (binary_value_at x i Hb Hi) as [Ei | Ei];
    destruct (binary_value_at x j Hb Hj) as [Ej | Ej];
    rewrite Ei, Ej; cbn [Qeq_bool]; simpl; ring.
Qed.

Lemma value_at_complement (x : list Q) (i : Z) :
  (0 <= i < len x)%Z ->
  value_at (map (fun v => 1 - v) x) i = 1 - value_at x i.
Proof.
  unfold len, value_at. intros Hi.
  rewrite (nth_indep _ 0 (1 - 0)) by (rewrite length_map; lia).
  apply (map_nth (fun v => 1 - v)).
Qed.

(** X17: exchanging the two sides of the partition (every x[i] replaced by
    1 - x[i]) leaves the value of the objective unchanged, for every
    assignment over the nodes of the graph, 0/1 or not. *)
Theorem objective_complement (es : list (Z * Z * Q)) (x : list Q) :
  edges_within es x ->
  exists value value',
    objective es x = Ok value /\
    objective es (map (fun v => 1 - v) x) = Ok value' /\
    value' == value.
Proof.
  intros Hin.
  assert (Hin' : edges_within es (map (fun v => 1 - v) x)).
  { unfold edges_within, len in *. now rewrite length_map. }
  rewrite (objective_terms es x Hin), (objective_terms es _ Hin').
  do 2 eexists. split; [reflexivity|]. split; [reflexivity|].
  apply fold_Qplus_compat; [|reflexivity].
  induction Hin as [|[[i j] w] es [Hi Hj] _ IH]; [constructor|].
  cbn [map]. constructor.
  - simpl in Hi, Hj. rewrite !value_at_complement by assumption. ring.
  - apply IH. now inversion Hin'.
Qed.

Lemma demo_edges_within : edges_within edges [0; 1; 1; 0; 0].
Proof. repeat constructor; vm_compute; discriminate. Defined.

Lemma objective_is_cut_weight_witness :
  exists value,
    objective edges [0; 1; 1; 0; 0] = Ok value /\
    value == cut_weight edges [0; 1; 1; 0; 0].
Proof.
  apply (objective_is_cut_weight edges [0; 1; 1; 0; 0]).
  - repeat constructor; (now left) || (now right).
  - exact demo_edges_within.
Defined.

Lemma objective_complement_witness :
  exists value value',
    objective edges [0; 1; 1; 0; 0] = Ok value /\
    objective edges (map (fun v => 1 - v) [0; 1; 1; 0; 0]) = Ok value' /\
    value' == value.
Proof.
  apply (objective_complement edges [0; 1; 1; 0; 0]). exact demo_edges_within.
Defined.

(** ** Session 2: the tick labels *)

Module LabelFacts.

Import Ascii String Labels.
#[local] Open Scope string_scope.

Lemma binary_value_zeros (n : nat) (s : string) :
  BinaryString.Raw.to_N (zeros n ++ s) 0 = BinaryString.Raw.to_N s 0.
Proof. induction n as [|n IH]; [reflexivity | exact IH]. Qed.

Lemma binary_value_digits (i : Z) :
  (0 <= i)%Z -> binary_value (bin_digits i) = Z.to_N i.
Proof.
  intros Hi. destruct i as [|p|p]; [reflexivity| |lia].
  unfold binary_value, bin_digits.
  now rewrite BinaryString.Raw.to_N_of_pos.
Qed.

Lemma zeros_length (n : nat) : length (zeros n) = n.
Proof. induction n as [|n IH]; [reflexivity | simpl; now rewrite IH]. Qed.

Lemma append_length (s1 s2 : string) : length (s1 ++ s2) = (length s1 + length s2)%nat.
Proof. induction s1 as [|c s1 IH]; [reflexivity | simpl; now rewrite IH]. Qed.

(** X18: for every i >= 0 the binary part of a tick label, [format(i,
    '05b')], reads back as i in base two, and has at least five
    characters, exactly five when i < 32 (the 2^5 basis states of the
    plots); larger numbers are never cut.  Different numbers therefore get
    different binary parts. *)
Theorem format_05b_round_trip (i : Z) :
  (0 <= i)%Z ->
  binary_value (format_05b i) = Z.to_N i /\
  (5 <= length (format_05b i))%nat /\
  ((i < 32)%Z -> length (format_05b i) = 5%nat) /\
  (forall j, (0 <= j)%Z -> format_05b j = format_05b i -> j = i).
Proof.
  intros Hi.
  assert (Hval : forall k, (0 <= k)%Z -> binary_value (format_05b k) = Z.to_N k).
  { intros k Hk. unfold format_05b.
    destruct (k <? 0)%Z eqn:E; [apply Z.ltb_lt in E; lia|].
    unfold zero_pad, binary_value. rewrite binary_value_zeros.
    now apply binary_value_digits. }
  split; [now apply Hval|]. split; [|split].
  - unfold format_05b.
    destruct (i <? 0)%Z eqn:E; [apply Z.ltb_lt in E; lia|].
    unfold zero_pad. rewrite append_length, zeros_length. lia.
  - intros Hlt.
    assert (Hin : In i (range 32)) by (apply range_In; lia).
    assert (Hall : forallb (fun k => Nat.eqb (length (format_05b k)) 5) (range 32) = true)
      by (vm_compute; reflexivity).
    rewrite forallb_forall in Hall. now apply Nat.eqb_eq, Hall.
  - intros j Hj E.
    assert (Hn : Z.to_N j = Z.to_N i) by (rewrite <- !Hval by assumption; now rewrite E).
    lia.
Qed.

Lemma format_05b_round_trip_witness :
  binary_value (format_05b 19) = Z.to_N 19 /\
  (5 <= length (format_05b 19))%nat /\
  ((19 < 32)%Z -> length (format_05b 19) = 5%nat) /\
  (forall j, (0 <= j)%Z -> format_05b j = format_05b 19 -> j = 19%Z).
Proof.
  apply (format_05b_round_trip 19). lia.
Defined.

Example tick_label_19 : tick_label 19 = "(19) 10011".
Proof. reflexivity. Qed.

Example tick_label_3 : tick_label 3 = "(3) 00011".
Proof. reflexivity. Qed.

End LabelFacts.
